(** * Voice-to-visual analysis pipeline of [src/app/page.tsx]

    A shallow embedding of the lexical analysis ([analyzeText]), the insight
    builder ([buildInsights]), the reply generator ([generateAgentReply]) and
    the session transition ([processChunk]) of the page component, together
    with the properties the specification states about them.

    Conventions of the embedding.
    - A JavaScript string is the list of its UTF-16 code units ([jsstring]).
      Regular expressions without the [u] flag, [length], [charAt], [slice]
      and [split] all work on code units, so nothing is lost.
    - [String.prototype.toLowerCase] and [toUpperCase] follow the Unicode
      case tables; they are kept abstract in the class [CaseMapping], whose
      only laws are their behaviour on ASCII text.
    - A JavaScript number holding a count or a clock reading is a [nat] or an
      [N]; one holding a score is an exact rational ([Q]): rounding of IEEE
      doubles is not modelled.
    - React state is an explicit record ([Session]) and every [Date.now()]
      reading is an argument of the transition. *)

From Stdlib Require Import String Ascii NArith ZArith QArith Qminmax Qround Qabs Lia Lqa DecimalN.
From stdpp Require Import base decidable list sorting gmap.

Local Open Scope N_scope.

(** ** Strings *)

Definition codeUnit := N.
Definition jsstring := list N.

(** An ASCII literal of the source as a [jsstring]. *)
Definition js (s : string) : jsstring :=
  map N_of_ascii (list_ascii_of_string s).

(** [\s] of a regular expression, which is also what [trim] strips:
    WhiteSpace and LineTerminator of ECMAScript. *)
Definition isSpace (c : codeUnit) : bool :=
  ((9 <=? c) && (c <=? 13)) || (c =? 32) || (c =? 160) || (c =? 5760)
  || ((8192 <=? c) && (c <=? 8202)) || (c =? 8232) || (c =? 8233)
  || (c =? 8239) || (c =? 8287) || (c =? 12288) || (c =? 65279).

(** The character class [[a-z0-9]]. *)
Definition isLowerAlnum (c : codeUnit) : bool :=
  ((97 <=? c) && (c <=? 122)) || ((48 <=? c) && (c <=? 57)).

Definition asciiLower (c : codeUnit) : codeUnit :=
  if (65 <=? c) && (c <=? 90) then c + 32 else c.

Definition asciiUpper (c : codeUnit) : codeUnit :=
  if (97 <=? c) && (c <=? 122) then c - 32 else c.

Definition isAscii (s : jsstring) : Prop := Forall (fun c => c < 128) s.

(** Case conversion of the host engine. *)
Class CaseMapping := {
  toLowerCase : jsstring -> jsstring;
  toUpperCase : jsstring -> jsstring;
  toLowerCase_ascii : forall s, isAscii s -> toLowerCase s = map asciiLower s;
  toUpperCase_ascii : forall s, isAscii s -> toUpperCase s = map asciiUpper s
}.

(** The mapping that touches ASCII letters only; it is the engine's mapping
    on every string without cased characters outside ASCII. *)
#[refine] Instance asciiCase : CaseMapping := {
  toLowerCase := map asciiLower;
  toUpperCase := map asciiUpper
}.
Proof. all: reflexivity. Defined.

(** [s.trim()] *)
Fixpoint trimStart (s : jsstring) : jsstring :=
  match s with
  | c :: rest => if isSpace c then trimStart rest else s
  | [] => []
  end.

Definition trim (s : jsstring) : jsstring :=
  reverse (trimStart (reverse (trimStart s))).

(** [s.replace(/[^a-z0-9\s]/g, " ")] *)
Definition replaceNonAlnum (s : jsstring) : jsstring :=
  map (fun c => if isLowerAlnum c || isSpace c then c else 32) s.

(** [s.split(/\s+/)]: [cur] is the piece being read and [inGap] tells that
    the previous code unit belonged to a separator. A separator at the start
    or the end of the string leaves an empty piece there, and the empty
    string splits into one empty piece. *)
Fixpoint splitGo (inGap : bool) (cur : jsstring) (s : jsstring) : list jsstring :=
  match s with
  | [] => [cur]
  | c :: rest =>
      if isSpace c
      then (if inGap then splitGo true [] rest else cur :: splitGo true [] rest)
      else splitGo false (cur ++ [c]) rest
  end.

Definition splitSpaces (s : jsstring) : list jsstring := splitGo false [] s.

Definition STOP_WORDS : gset jsstring :=
  list_to_set (map js
    ["the"; "and"; "that"; "have"; "this"; "with"; "from"; "your"; "about";
     "there"; "what"; "when"; "will"; "would"; "could"; "should"; "which";
     "into"; "over"; "under"; "while"; "where"; "been"; "were"; "them";
     "they"; "then"; "than"; "just"; "like"; "really"; "maybe"; "know";
     "want"; "need"; "please"]%string).

Definition POSITIVE_TERMS : list jsstring :=
  map js
    ["great"; "good"; "awesome"; "excited"; "optimistic"; "love"; "amazing";
     "win"; "growth"; "positive"; "up"; "better"; "improve"; "success";
     "increase"]%string.

Definition NEGATIVE_TERMS : list jsstring :=
  map js
    ["bad"; "problem"; "issue"; "concern"; "stuck"; "risk"; "down";
     "decline"; "worse"; "fail"; "fear"; "uncertain"; "hard";
     "difficult"]%string.

(** The filter of [analyzeText]:
    [token && token.length > 2 && !STOP_WORDS.has(token)]. *)
Definition keepToken (token : jsstring) : bool :=
  bool_decide (token <> []) && (2 <? length token)%nat
  && negb (bool_decide (token ∈ STOP_WORDS)).

(** The constant [clean] of [analyzeText]. *)
Definition normalize `{CaseMapping} (content : jsstring) : list jsstring :=
  List.filter keepToken (splitSpaces (replaceNonAlnum (toLowerCase content))).

(** ** Numbers *)

Local Open Scope Q_scope.

(** [Math.min(max, Math.max(min, value))] *)
Definition clamp (value min max : Q) : Q := Qmin max (Qmax min value).

(** [Math.round]: the nearest integer, halves going up. *)
Definition mathRound (x : Q) : Z := Qfloor (x + (1 # 2)).

Definition ofNat (n : nat) : Q := inject_Z (Z.of_nat n).

(** A number inside a template literal. Every number printed by the page is
    an integer below 10^21, which JavaScript writes in plain decimal. *)
Fixpoint digitsOf (d : Decimal.uint) : jsstring :=
  match d with
  | Decimal.Nil => []
  | Decimal.D0 d => 48%N :: digitsOf d
  | Decimal.D1 d => 49%N :: digitsOf d
  | Decimal.D2 d => 50%N :: digitsOf d
  | Decimal.D3 d => 51%N :: digitsOf d
  | Decimal.D4 d => 52%N :: digitsOf d
  | Decimal.D5 d => 53%N :: digitsOf d
  | Decimal.D6 d => 54%N :: digitsOf d
  | Decimal.D7 d => 55%N :: digitsOf d
  | Decimal.D8 d => 56%N :: digitsOf d
  | Decimal.D9 d => 57%N :: digitsOf d
  end.

Definition showN (n : N) : jsstring := digitsOf (N.to_uint n).

Definition showZ (z : Z) : jsstring :=
  match z with
  | Zneg p => 45%N :: showN (Npos p)
  | _ => showN (Z.to_N z)
  end.

(** ** Data model *)

Module Cluster.
Record t := mk { label : jsstring; score : Q; summary : jsstring }.
End Cluster.

Module Insight.
Record t := mk {
  id : jsstring; label : jsstring; detail : jsstring; pulse : Q; delta : Q
}.
End Insight.

Module Segment.
Record t := mk { id : jsstring; text : jsstring; timestamp : N }.
End Segment.

Record Analysis := mkAnalysis {
  keywords : list jsstring;
  sentiment : Q;
  energy : Q;
  clusters : list Cluster.t
}.

(** ** The frequency map

    A JavaScript [Map] iterates in insertion order and [set] on a key that is
    present keeps the key's position: an association list with in-place
    update. *)

Definition FreqMap := list (jsstring * nat).

Fixpoint mapGet (k : jsstring) (m : FreqMap) : option nat :=
  match m with
  | [] => None
  | (k', v) :: rest => if decide (k' = k) then Some v else mapGet k rest
  end.

Fixpoint mapSet (k : jsstring) (v : nat) (m : FreqMap) : FreqMap :=
  match m with
  | [] => [(k, v)]
  | (k', v') :: rest =>
      if decide (k' = k) then (k, v) :: rest else (k', v') :: mapSet k v rest
  end.

(** [clean.forEach(token => frequency.set(token, (frequency.get(token) ?? 0) + 1))] *)
Definition countToken (m : FreqMap) (token : jsstring) : FreqMap :=
  mapSet token (default 0%nat (mapGet token m) + 1)%nat m.

Definition frequencyOf (clean : list jsstring) : FreqMap :=
  fold_left countToken clean [].

(** ** Sorting

    [Array.prototype.sort] is stable (ECMAScript 2019), so for a comparator
    that is a consistent ordering its result is the one of any stable sort;
    insertion from the right is the simplest of them. [cmp a b <= 0] keeps
    [a] in front of [b]. *)

Section Sort.
Context {A : Type} (cmp : A -> A -> Z).

Fixpoint insertBy (x : A) (l : list A) : list A :=
  match l with
  | [] => [x]
  | y :: rest =>
      if (cmp x y <=? 0)%Z then x :: l else y :: insertBy x rest
  end.

Fixpoint sortBy (l : list A) : list A :=
  match l with
  | [] => []
  | x :: rest => insertBy x (sortBy rest)
  end.

End Sort.

(** The comparator [(a, b) => b[1] - a[1]]. *)
Definition byCountDesc (a b : jsstring * nat) : Z :=
  (Z.of_nat (snd b) - Z.of_nat (snd a))%Z.

(** ** analyzeText *)

(** [input.charAt(0).toUpperCase() + input.slice(1)] *)
Definition capitalize `{CaseMapping} (input : jsstring) : jsstring :=
  toUpperCase (take 1 input) ++ drop 1 input.

(** [clean.filter(token => TERMS.includes(token)).length] *)
Definition hits (terms clean : list jsstring) : nat :=
  length (List.filter (fun token => bool_decide (token ∈ terms)) clean).

Definition summaryOf (keyword : jsstring) (score : Q) : jsstring :=
  js "Emerging signal around " ++ [8220%N] ++ keyword ++ [8221%N]
  ++ js " with " ++ showZ (mathRound (score * 100)) ++ js "% clarity.".

(** The body of [analyzeText], with the two term lists as arguments. *)
Definition analyzeWith `{CaseMapping} (positive negative : list jsstring)
    (content : jsstring) : Analysis :=
  let clean := normalize content in
  if bool_decide (length clean = 0%nat) then
    {| keywords := []; sentiment := 0; energy := 0; clusters := [] |}
  else
    let frequency := frequencyOf clean in
    let keywords := map fst (take 6 (sortBy byCountDesc frequency)) in
    let positiveHits := hits positive clean in
    let negativeHits := hits negative clean in
    let sentiment :=
      clamp ((ofNat positiveHits - ofNat negativeHits)
             / ofNat (Nat.max (length clean) 4)) (-1) 1 in
    let energy :=
      clamp (ofNat (length clean) / 45 + Qabs sentiment * 0.45) 0 1 in
    let clusters :=
      map (fun keyword =>
             let scoreSeed :=
               ofNat (default 1%nat (mapGet keyword frequency))
               / ofNat (Nat.max (length clean) 1) in
             let score := clamp (scoreSeed * 2 + energy * 0.6) 0 1 in
             {| Cluster.label := capitalize keyword;
                Cluster.score := score;
                Cluster.summary := summaryOf keyword score |})
          (take 3 keywords) in
    {| keywords := keywords; sentiment := sentiment; energy := energy;
       clusters := clusters |}.

Definition analyzeText `{CaseMapping} (content : jsstring) : Analysis :=
  analyzeWith POSITIVE_TERMS NEGATIVE_TERMS content.

(** ** generateAgentReply *)

Definition Qgtb (x y : Q) : bool := negb (Qle_bool x y).
Definition Qltb (x y : Q) : bool := negb (Qle_bool y x).

(** [pieces.join(sep)] *)
Fixpoint join (sep : jsstring) (pieces : list jsstring) : jsstring :=
  match pieces with
  | [] => []
  | [piece] => piece
  | piece :: rest => piece ++ sep ++ join sep rest
  end.

Definition generateAgentReply `{CaseMapping} (latestChunk : jsstring)
    (analysis : Analysis) : jsstring :=
  if bool_decide (trim latestChunk = []) then
    js "Ready when you are. Share your thought and I will map the field in real-time."
  else
    let tone :=
      if Qgtb (sentiment analysis) 0.2 then js "Uplifted"
      else if Qltb (sentiment analysis) (-0.2) then js "Cautious"
      else js "Neutral" in
    let headline :=
      join [32%N; 183%N; 32%N] (map capitalize (take 2 (keywords analysis))) in
    let trendDirection :=
      if Qgtb (sentiment analysis) 0.15 then js "momentum is tilting upward"
      else if Qltb (sentiment analysis) (-0.15) then js "momentum is cooling down"
      else js "signal is steady" in
    let closing :=
      if Qgtb (energy analysis) 0.7
      then js "Let's chase that spike before it dissipates."
      else if Qltb (energy analysis) 0.3
      then js "We can probe deeper if you want to expand the field."
      else js "I'm maintaining orbit. Drop another detail when ready." in
    tone ++ js " Grok vector locked. "
    ++ (if bool_decide (headline = []) then js "Listening" else headline)
    ++ js " indicates " ++ trendDirection ++ js ". " ++ closing.

(** ** buildInsights *)

Definition BASE_INSIGHTS : list Insight.t :=
  [ {| Insight.id := js "baseline-velocity";
       Insight.label := js "Signal Velocity";
       Insight.detail :=
         js "Live trendline for how quickly the conversation is evolving.";
       Insight.pulse := 0.48;
       Insight.delta := 0.06 |};
    {| Insight.id := js "baseline-composure";
       Insight.label := js "Agent Composure";
       Insight.detail :=
         js "Ambient calm from the voice agent's prosodic fingerprint.";
       Insight.pulse := 0.62;
       Insight.delta := -0.04 |};
    {| Insight.id := js "baseline-focus";
       Insight.label := js "Focus Field";
       Insight.detail :=
         js "Dominant node describing the most coherent cluster in view.";
       Insight.pulse := 0.55;
       Insight.delta := 0.08 |} ].

(** The callback of [analysis.clusters.map((cluster, index) => ...)]. *)
Definition clusterInsight `{CaseMapping} (analysis : Analysis) (index : nat)
    (cluster : Cluster.t) : Insight.t :=
  {| Insight.id := js "cluster-" ++ toLowerCase (Cluster.label cluster);
     Insight.label := Cluster.label cluster ++ js " Signal";
     Insight.detail := Cluster.summary cluster;
     Insight.pulse :=
       clamp (0.35 + Cluster.score cluster * 0.55 + ofNat index * 0.1) 0.2 0.95;
     Insight.delta :=
       clamp (sentiment analysis * 0.6 + Cluster.score cluster * 0.3
              - ofNat index * 0.05) (-0.4) 0.4 |}.

Definition buildInsights `{CaseMapping} (analysis : Analysis) : list Insight.t :=
  if bool_decide (length (keywords analysis) = 0%nat) then BASE_INSIGHTS
  else
    let dynamic := imap (clusterInsight analysis) (clusters analysis) in
    take 5 (dynamic ++ BASE_INSIGHTS).

(** ** Session state and processChunk *)

Record Session := mkSession {
  transcript : jsstring;
  segments : list Segment.t;
  compiledText : jsstring;
  agentReply : jsstring;
  isListening : bool;
  lastUpdate : N;
  manualInput : jsstring;
  interimRef : jsstring
}.

(** The three readings of [Date.now()] taken while one fragment is
    processed: for the segment id, for the segment timestamp and for
    [setLastUpdate]. *)
Record Ticks := mkTicks { idNow : N; stampNow : N; updateNow : N }.

(** The state of a freshly mounted page; [mounted] is the clock at mount. *)
Definition initialSession (mounted : N) : Session :=
  {| transcript := [];
     segments := [];
     compiledText := [];
     agentReply :=
       js "Open mic. Speak your idea and I'll plot the Grok visual in real-time.";
     isListening := false;
     lastUpdate := mounted;
     manualInput := [];
     interimRef := [] |}.

(** [next.slice(-6)] *)
Definition sliceLast6 {A : Type} (next : list A) : list A :=
  drop (length next - 6) next.

Definition processChunk `{CaseMapping} (clock : Ticks) (st : Session)
    (content : jsstring) : Session :=
  let trimmed := trim content in
  if bool_decide (trimmed = []) then st
  else
    let prev := segments st in
    let next :=
      prev ++ [ {| Segment.id :=
                     showN (idNow clock) ++ js "-" ++ showN (N.of_nat (length prev));
                   Segment.text := trimmed;
                   Segment.timestamp := stampNow clock |} ] in
    let prevText := compiledText st in
    let nextText :=
      if bool_decide (prevText = []) then trimmed
      else prevText ++ js " " ++ trimmed in
    let computed := analyzeText nextText in
    {| transcript := [];
       segments := sliceLast6 next;
       compiledText := nextText;
       agentReply := generateAgentReply trimmed computed;
       isListening := isListening st;
       lastUpdate := updateNow clock;
       manualInput := manualInput st;
       interimRef := [] |}.

(** [handleManualSubmit] *)
Definition handleManualSubmit `{CaseMapping} (clock : Ticks) (st : Session)
    : Session :=
  if bool_decide (trim (manualInput st) = []) then st
  else
    let st' := processChunk clock st (manualInput st) in
    {| transcript := transcript st';
       segments := segments st';
       compiledText := compiledText st';
       agentReply := agentReply st';
       isListening := isListening st';
       lastUpdate := lastUpdate st';
       manualInput := [];
       interimRef := interimRef st' |}.

(** Fragments submitted one after the other, each with its clock readings. *)
Definition submitAll `{CaseMapping} (st : Session)
    (fragments : list (Ticks * jsstring)) : Session :=
  fold_left (fun s tf => processChunk (fst tf) s (snd tf)) fragments st.

(** The memoised values [analysis] and [insights] of the component. *)
Definition analysisOf `{CaseMapping} (st : Session) : Analysis :=
  analyzeText (compiledText st).

Definition insightsOf `{CaseMapping} (st : Session) : list Insight.t :=
  buildInsights (analysisOf st).

(** ** The rest of the component *)

(** [momentumVariance] *)
Definition momentumVariance (analysis : Analysis) : Q :=
  clamp (energy analysis * 0.45 + Qabs (sentiment analysis) * 0.35) 0.2 0.9.

(** [beginListening]. [start] is [None] when no recognition instance is held,
    [Some false] when [recognition.start()] throws and [Some true] when it
    returns. *)
Definition beginListening (start : option bool) (st : Session) : Session :=
  match start with
  | Some true =>
      {| transcript := transcript st;
         segments := segments st;
         compiledText := compiledText st;
         agentReply :=
           js "Streaming... anchoring the Grok visual to your voice signal.";
         isListening := true;
         lastUpdate := lastUpdate st;
         manualInput := manualInput st;
         interimRef := interimRef st |}
  | _ => st
  end.

(** [stopListening]; [recognition] tells whether an instance is held. *)
Definition stopListening (recognition : bool) (st : Session) : Session :=
  if recognition then
    {| transcript := transcript st;
       segments := segments st;
       compiledText := compiledText st;
       agentReply :=
         js "Mic paused. Drop another thought or type it in to extend the Grok visual.";
       isListening := false;
       lastUpdate := lastUpdate st;
       manualInput := manualInput st;
       interimRef := interimRef st |}
  else st.

(** The handlers [recognition.onerror] and [recognition.onend]. *)
Definition recognitionStopped (st : Session) : Session :=
  {| transcript := transcript st;
     segments := segments st;
     compiledText := compiledText st;
     agentReply := agentReply st;
     isListening := false;
     lastUpdate := lastUpdate st;
     manualInput := manualInput st;
     interimRef := interimRef st |}.

(** [onChange] of the text area: [setManualInput(event.target.value)]. *)
Definition setManualInput (value : jsstring) (st : Session) : Session :=
  {| transcript := transcript st;
     segments := segments st;
     compiledText := compiledText st;
     agentReply := agentReply st;
     isListening := isListening st;
     lastUpdate := lastUpdate st;
     manualInput := value;
     interimRef := interimRef st |}.

(** The recognition event as the component types it: entries of [results]
    and of a result may be [undefined], and so may a [transcript]. *)
Module Recognition.
Record Alternative := mkAlternative { transcript : option jsstring }.
Record Result := mkResult {
  isFinal : bool;
  alternatives : list (option Alternative)
}.
Record Event := mkEvent {
  resultIndex : nat;
  results : list (option Result)
}.
End Recognition.

(** [result[0]?.transcript ?? ""] *)
Definition textFragmentOf (result : Recognition.Result) : jsstring :=
  match Recognition.alternatives result !! 0%nat with
  | Some (Some alternative) => default [] (Recognition.transcript alternative)
  | _ => []
  end.

(** The loop of [recognition.onresult] from index [i] over the results that
    are left; [clockAt i] holds the clock readings taken while result [i] is
    processed. *)
Fixpoint resultLoop `{CaseMapping} (clockAt : nat -> Ticks) (i : nat)
    (pending : list (option Recognition.Result)) (st : Session)
    (liveTranscript : jsstring) : Session * jsstring :=
  match pending with
  | [] => (st, liveTranscript)
  | None :: rest => resultLoop clockAt (S i) rest st liveTranscript
  | Some result :: rest =>
      let textFragment := textFragmentOf result in
      if bool_decide (textFragment = []) then
        resultLoop clockAt (S i) rest st liveTranscript
      else if Recognition.isFinal result then
        resultLoop clockAt (S i) rest
          (processChunk (clockAt i) st textFragment) liveTranscript
      else
        resultLoop clockAt (S i) rest st (liveTranscript ++ textFragment)
  end.

(** What the end of [onresult] does with the live transcript:
    [interimRef.current = liveTranscript; setTranscript(liveTranscript)]. *)
Definition showLive (liveTranscript : jsstring) (st : Session) : Session :=
  {| transcript := liveTranscript;
     segments := segments st;
     compiledText := compiledText st;
     agentReply := agentReply st;
     isListening := isListening st;
     lastUpdate := lastUpdate st;
     manualInput := manualInput st;
     interimRef := liveTranscript |}.

(** [recognition.onresult] *)
Definition onresult `{CaseMapping} (clockAt : nat -> Ticks)
    (event : Recognition.Event) (st : Session) : Session :=
  let looped :=
    resultLoop clockAt (Recognition.resultIndex event)
      (drop (Recognition.resultIndex event) (Recognition.results event)) st [] in
  showLive (snd looped) (fst looped).

(** Everything that can happen to a mounted page. *)
Inductive UiEvent :=
| RecognitionResult (clockAt : nat -> Ticks) (event : Recognition.Event)
| RecognitionStopped
| BeginListening (start : option bool)
| StopListening (recognition : bool)
| ManualInput (value : jsstring)
| ManualSubmit (clock : Ticks).

Definition handle `{CaseMapping} (st : Session) (e : UiEvent) : Session :=
  match e with
  | RecognitionResult clockAt event => onresult clockAt event st
  | RecognitionStopped => recognitionStopped st
  | BeginListening start => beginListening start st
  | StopListening recognition => stopListening recognition st
  | ManualInput value => setManualInput value st
  | ManualSubmit clock => handleManualSubmit clock st
  end.

Definition runEvents `{CaseMapping} (st : Session) (events : list UiEvent)
    : Session :=
  fold_left handle events st.

(** *** Values computed while rendering *)

(** The text of the "Mic Stream" panel. *)
Definition micStream (st : Session) : jsstring :=
  if bool_decide (transcript st = []) then
    if bool_decide (length (segments st) = 0%nat) then
      js "Standing by. Your audio stream routes here for instant Grok synthesis."
    else
      match last (segments st) with
      | Some segment => Segment.text segment
      | None => []
      end
  else transcript st.

(** [opacity: clamp(analysis.energy + 0.25, 0.25, 1)] *)
Definition momentumOpacity (analysis : Analysis) : Q :=
  clamp (energy analysis + 0.25) 0.25 1.

(** [Math.round(Math.max(analysis.energy, 0.05) * 100)], the width of the
    energy bar in percent. *)
Definition energyBarWidth (analysis : Analysis) : Z :=
  mathRound (Qmax (energy analysis) 0.05 * 100).

(** The percentage inside [inset(...)] of the sentiment dial. *)
Definition sentimentInset (analysis : Analysis) : Z :=
  if Qle_bool 0 (sentiment analysis)
  then mathRound ((1 - sentiment analysis) * 40)
  else mathRound ((1 + sentiment analysis) * 40).

(** [Math.round(analysis.sentiment * 100)], the sentiment index. *)
Definition sentimentIndex (analysis : Analysis) : Z :=
  mathRound (sentiment analysis * 100).

(** The chips under "Trending Topics"; each is keyed by its text. *)
Definition trendingTopics (analysis : Analysis) : list jsstring :=
  if bool_decide (length (keywords analysis) = 0%nat) then
    [js "voice graph"; js "agent choreography"; js "signal lattice";
     js "grok overlay"]
  else keywords analysis.

(** [18 - momentumVariance * 6], the seconds of one turn of the rings. *)
Definition spinDuration (analysis : Analysis) : Q :=
  18 - momentumVariance analysis * 6.

(** [Math.round(momentumVariance * 100)], the coherence in percent. *)
Definition coherence (analysis : Analysis) : Z :=
  mathRound (momentumVariance analysis * 100).

(** [Math.round(insight.pulse * 100)] and [Math.round(insight.delta * 100)]
    of an insight card. *)
Definition pulsePercent (insight : Insight.t) : Z :=
  mathRound (Insight.pulse insight * 100).

Definition driftPercent (insight : Insight.t) : Z :=
  mathRound (Insight.delta insight * 100).

(** ** Vocabulary of the specification

    The notions the specification uses to describe the results, defined on
    the token sequence alone. *)

(** How often [token] occurs in [tokens]. *)
Definition occurrences (token : jsstring) (tokens : list jsstring) : nat :=
  length (List.filter (fun t => bool_decide (t = token)) tokens).

(** The position at which [token] is seen first. *)
Fixpoint firstIndex (token : jsstring) (tokens : list jsstring) : nat :=
  match tokens with
  | [] => 0
  | t :: rest => if decide (t = token) then 0 else S (firstIndex token rest)
  end.

(** [a] is ranked in front of [b]: more occurrences, or as many and seen
    earlier. *)
Definition ranksBefore (tokens : list jsstring) (a b : jsstring) : Prop :=
  (occurrences b tokens < occurrences a tokens)%nat
  \/ (occurrences a tokens = occurrences b tokens
      /\ (firstIndex a tokens < firstIndex b tokens)%nat).

(** The distinct tokens in the order in which they are seen first. *)
Fixpoint firstSeen (tokens : list jsstring) : list jsstring :=
  match tokens with
  | [] => []
  | t :: rest =>
      t :: List.filter (fun x => negb (bool_decide (x = t))) (firstSeen rest)
  end.

(** Hits as the specification counts them: every occurrence in the token
    sequence of every term of the list. *)
Definition specHits (terms tokens : list jsstring) : nat :=
  sum_list (map (fun term => occurrences term tokens) terms).

Definition specSentiment (tokens : list jsstring) : Q :=
  clamp ((ofNat (specHits POSITIVE_TERMS tokens)
          - ofNat (specHits NEGATIVE_TERMS tokens))
         / ofNat (Nat.max (length tokens) 4)) (-1) 1.

Definition specEnergy (tokens : list jsstring) (sentiment : Q) : Q :=
  clamp (ofNat (length tokens) / 45 + Qabs sentiment * 0.45) 0 1.

(** [POSITIVE_TERMS] with its entry ["up"] left out. *)
Definition POSITIVE_TERMS_without_up : list jsstring :=
  map js
    ["great"; "good"; "awesome"; "excited"; "optimistic"; "love"; "amazing";
     "win"; "growth"; "positive"; "better"; "improve"; "success";
     "increase"]%string.

(** What the trail remembers of an accepted fragment, and the fragments of a
    submission sequence that are accepted. *)
Definition trailEntry (s : Segment.t) : jsstring * N :=
  (Segment.text s, Segment.timestamp s).

Definition accepted (fragments : list (Ticks * jsstring)) : list (jsstring * N) :=
  omap (fun tf : Ticks * jsstring =>
          if bool_decide (trim (snd tf) = []) then None
          else Some (trim (snd tf), stampNow (fst tf)))
       fragments.

(** ** Auxiliary notions of the proofs *)

(** [set] on a key of the map: the entry is replaced where it stands. *)
Definition bump (t : jsstring) (m : FreqMap) : FreqMap :=
  map (fun kv => if decide (fst kv = t) then (fst kv, S (snd kv)) else kv) m.

(** Entries of the map by descending counts, and in the order [before] among
    equal counts. *)
Definition countThenBefore (before : jsstring * nat -> jsstring * nat -> Prop)
    (a b : jsstring * nat) : Prop :=
  (snd b < snd a)%nat \/ (snd a = snd b /\ before a b).

(** A text that does not begin with white space. *)
Definition startsClean (s : jsstring) : Prop :=
  match s with
  | [] => True
  | c :: _ => isSpace c = false
  end.

(** What every reachable session satisfies: a trail of at most six segments
    that is empty exactly when the corpus is, whose texts are non-empty and
    trimmed, the corpus ending with the text of the newest segment and being
    trimmed itself. *)
Definition trailInvariant (st : Session) : Prop :=
  (length (segments st) <= 6)%nat
  /\ (segments st = [] <-> compiledText st = [])
  /\ Forall (fun segment =>
               Segment.text segment <> []
               /\ trim (Segment.text segment) = Segment.text segment)
       (segments st)
  /\ (forall segment, last (segments st) = Some segment ->
                      Segment.text segment `suffix_of` compiledText st)
  /\ trim (compiledText st) = compiledText st.

(** The final results of an event that carry text, with their clock
    readings, and the text of its interim results. *)
Fixpoint finalFragments (clockAt : nat -> Ticks) (i : nat)
    (pending : list (option Recognition.Result)) : list (Ticks * jsstring) :=
  match pending with
  | [] => []
  | None :: rest => finalFragments clockAt (S i) rest
  | Some result :: rest =>
      if Recognition.isFinal result
         && negb (bool_decide (textFragmentOf result = []))
      then (clockAt i, textFragmentOf result) :: finalFragments clockAt (S i) rest
      else finalFragments clockAt (S i) rest
  end.

Fixpoint interimText (pending : list (option Recognition.Result)) : jsstring :=
  match pending with
  | [] => []
  | None :: rest => interimText rest
  | Some result :: rest =>
      if Recognition.isFinal result then interimText rest
      else textFragmentOf result ++ interimText rest
  end.

(** The id clock readings of the accepted fragments of a submission
    sequence. *)
Definition acceptedIdTimes (fragments : list (Ticks * jsstring)) : list N :=
  omap (fun tf : Ticks * jsstring =>
          if bool_decide (trim (snd tf) = []) then None
          else Some (idNow (fst tf)))
       fragments.

(** The id written from a clock reading and a counter. *)
Definition renderId (p : N * N) : jsstring :=
  showN (fst p) ++ js "-" ++ showN (snd p).

(** ** Worked examples *)

Example normalize_demo :
  normalize (js "  Hello, the WORLD-wide web is up!! ")
  = map js ["hello"; "world"; "wide"; "web"]%string.
Proof. vm_compute. reflexivity. Qed.

Example analyze_demo :
  let a := analyzeText (js "Win win WIN! great growth, bad risk; the growth") in
  keywords a = map js ["win"; "growth"; "great"; "bad"; "risk"]%string
  /\ Qred (sentiment a) = 1 # 2 /\ Qred (energy a) = 29 # 72
  /\ map Cluster.label (clusters a) = map js ["Win"; "Growth"; "Great"]%string.
Proof. vm_compute. repeat split; reflexivity. Qed.

Example reply_demo :
  agentReply (processChunk (mkTicks 5 5 5) (initialSession 0)
                (js " Great win, great growth! "))
  = js "Uplifted Grok vector locked. Great " ++ [183%N]
    ++ js " Win indicates momentum is tilting upward. I'm maintaining orbit. Drop another detail when ready.".
Proof. vm_compute. reflexivity. Qed.

(** ** The lexical normalizer *)

Lemma replaceNonAlnum_chars (s : jsstring) :
  Forall (fun c => isSpace c = true \/ isLowerAlnum c = true) (replaceNonAlnum s).
Proof.
  unfold replaceNonAlnum. apply Forall_fmap, Forall_true. intros c; simpl.
  destruct (isLowerAlnum c) eqn:Ha; simpl; [now right|].
  destruct (isSpace c) eqn:Hs; [now left|]. left. reflexivity.
Qed.

Lemma splitGo_pieces (P : codeUnit -> Prop) (s : jsstring) :
  forall inGap cur,
    Forall P cur ->
    Forall (fun c => isSpace c = true \/ P c) s ->
    Forall (Forall P) (splitGo inGap cur s).
Proof.
  induction s as [|c rest IH]; intros inGap cur Hcur Hs; simpl.
  - repeat constructor. exact Hcur.
  - inversion Hs as [|? ? Hc Hrest]; subst.
    destruct (isSpace c) eqn:Esp.
    + destruct inGap; [|constructor; [exact Hcur|]]; apply IH; auto.
    + apply IH; [|exact Hrest].
      apply Forall_app; split; [exact Hcur|].
      constructor; [|constructor]. destruct Hc as [Hc|Hc]; [congruence|exact Hc].
Qed.

Lemma toLowerCase_nil `{CaseMapping} : toLowerCase [] = [].
Proof. rewrite toLowerCase_ascii; [reflexivity|constructor]. Qed.

Lemma normalize_nil `{CaseMapping} : normalize [] = [].
Proof. unfold normalize. rewrite toLowerCase_nil. reflexivity. Qed.

Lemma keepToken_length (token : jsstring) :
  keepToken token = true -> (2 < length token)%nat.
Proof.
  unfold keepToken. rewrite !andb_true_iff. intros [[_ Hlen] _].
  now apply Nat.ltb_lt in Hlen.
Qed.

(** C3. Every token of the normalizer consists of code units in [a-z0-9],
    is longer than two code units and is no stop word; the empty text has no
    tokens. *)
Theorem normalize_tokens `{CaseMapping} (content : jsstring) :
  normalize [] = []
  /\ forall token,
       token ∈ normalize content ->
       Forall (fun c => isLowerAlnum c = true) token
       /\ (2 < length token)%nat
       /\ token ∉ STOP_WORDS.
Proof.
  split; [apply normalize_nil|].
  intros token Hin. unfold normalize in Hin.
  apply list_elem_of_In, filter_In in Hin as [Hin Hkeep].
  split; [|split].
  - pose proof (splitGo_pieces (fun c => isLowerAlnum c = true)
                  (replaceNonAlnum (toLowerCase content)) false []) as Hall.
    specialize (Hall (Forall_nil_2 _) (replaceNonAlnum_chars _)).
    rewrite Forall_forall in Hall. apply Hall. now apply list_elem_of_In.
  - now apply keepToken_length.
  - unfold keepToken in Hkeep. rewrite !andb_true_iff in Hkeep.
    destruct Hkeep as [_ Hstop]. apply negb_true_iff in Hstop.
    now apply bool_decide_eq_false in Hstop.
Qed.

Lemma normalize_tokens_witness :
  Forall (fun c => isLowerAlnum c = true) (js "world")
  /\ (2 < length (js "world"))%nat
  /\ js "world" ∉ STOP_WORDS.
Proof.
  apply (proj2 (@normalize_tokens asciiCase (js "Hello, the WORLD is up"))).
  apply list_elem_of_In. vm_compute. right; left; reflexivity.
Defined.

(** ** The scorer *)

Lemma clamp_bounds (value lo hi : Q) :
  lo <= hi -> lo <= clamp value lo hi /\ clamp value lo hi <= hi.
Proof.
  intros Hle. unfold clamp. split.
  - apply Q.min_glb; [exact Hle|apply Q.le_max_l].
  - apply Q.le_min_l.
Qed.

Lemma hits_cons (term : jsstring) (terms clean : list jsstring) :
  term ∉ terms ->
  hits (term :: terms) clean = (occurrences term clean + hits terms clean)%nat.
Proof.
  intros Hfresh. unfold hits, occurrences.
  induction clean as [|x clean IH]; [reflexivity|]. simpl.
  destruct (decide (x = term)) as [->|Hne].
  - rewrite (bool_decide_eq_true_2 (term ∈ term :: terms)) by left.
    rewrite (bool_decide_eq_true_2 (term = term)) by reflexivity.
    rewrite (bool_decide_eq_false_2 (term ∈ terms)) by exact Hfresh.
    simpl. now rewrite IH.
  - rewrite (bool_decide_eq_false_2 (x = term)) by exact Hne.
    destruct (decide (x ∈ terms)) as [Hin|Hnin].
    + rewrite (bool_decide_eq_true_2 (x ∈ term :: terms)) by now right.
      rewrite (bool_decide_eq_true_2 (x ∈ terms)) by exact Hin.
      simpl. rewrite IH. lia.
    + rewrite (bool_decide_eq_false_2 (x ∈ term :: terms)).
      * rewrite (bool_decide_eq_false_2 (x ∈ terms)) by exact Hnin. exact IH.
      * intros Hin. apply elem_of_cons in Hin as [?|?]; contradiction.
Qed.

Lemma hits_specHits (terms clean : list jsstring) :
  NoDup terms -> hits terms clean = specHits terms clean.
Proof.
  induction 1 as [|term terms Hfresh Hnd IH].
  - unfold hits, specHits. simpl.
    induction clean as [|x clean IHc]; [reflexivity|]. exact IHc.
  - rewrite hits_cons by exact Hfresh. rewrite IH. reflexivity.
Qed.

Lemma POSITIVE_TERMS_NoDup : NoDup POSITIVE_TERMS.
Proof. apply (bool_decide_unpack _). vm_compute. exact I. Qed.

Lemma NEGATIVE_TERMS_NoDup : NoDup NEGATIVE_TERMS.
Proof. apply (bool_decide_unpack _). vm_compute. exact I. Qed.

Lemma analyzeWith_empty `{CaseMapping} (positive negative : list jsstring)
    (content : jsstring) :
  normalize content = [] ->
  analyzeWith positive negative content
  = {| keywords := []; sentiment := 0; energy := 0; clusters := [] |}.
Proof. intros Hnil. unfold analyzeWith. rewrite Hnil. reflexivity. Qed.

Lemma analyzeWith_scores `{CaseMapping} (positive negative : list jsstring)
    (content : jsstring) :
  normalize content <> [] ->
  let clean := normalize content in
  let a := analyzeWith positive negative content in
  sentiment a
  = clamp ((ofNat (hits positive clean) - ofNat (hits negative clean))
           / ofNat (Nat.max (length clean) 4)) (-1) 1
  /\ energy a = clamp (ofNat (length clean) / 45 + Qabs (sentiment a) * 0.45) 0 1.
Proof.
  intros Hne clean a. subst clean a. unfold analyzeWith.
  rewrite bool_decide_eq_false_2; [split; reflexivity|].
  destruct (normalize content); [congruence|discriminate].
Qed.

(** C8. An empty token sequence, and so the empty corpus, is analysed to the
    terminal record: no keywords, sentiment 0, energy 0, no clusters. *)
Theorem analyzeText_empty `{CaseMapping} (content : jsstring) :
  analyzeText []
  = {| keywords := []; sentiment := 0; energy := 0; clusters := [] |}
  /\ (normalize content = [] ->
      analyzeText content
      = {| keywords := []; sentiment := 0; energy := 0; clusters := [] |}).
Proof.
  split.
  - apply analyzeWith_empty, normalize_nil.
  - apply analyzeWith_empty.
Qed.

Lemma analyzeText_empty_witness :
  @analyzeText asciiCase (js " The  and, of it!! ")
  = {| keywords := []; sentiment := 0; energy := 0; clusters := [] |}.
Proof.
  apply (proj2 (@analyzeText_empty asciiCase (js " The  and, of it!! "))).
  vm_compute. reflexivity.
Defined.

(** C2. The sentiment of every text is the clamped quotient of the hit
    difference by [max(tokenCount, 4)], its energy is the clamped sum of
    [tokenCount / 45] and 0.45 times the magnitude of the sentiment, with
    the hits counted per occurrence; the sentiment lies in [-1, 1] and the
    energy in [0, 1]. *)
Theorem analyzeText_scores `{CaseMapping} (content : jsstring) :
  let tokens := normalize content in
  let a := analyzeText content in
  sentiment a == specSentiment tokens
  /\ energy a == specEnergy tokens (sentiment a)
  /\ (-1 <= sentiment a /\ sentiment a <= 1)
  /\ (0 <= energy a /\ energy a <= 1).
Proof.
  intros tokens a.
  assert (Hs : sentiment a == specSentiment tokens
               /\ energy a == specEnergy tokens (sentiment a)).
  { subst a. destruct (decide (tokens = [])) as [Hnil|Hne].
    - unfold analyzeText. rewrite analyzeWith_empty by exact Hnil.
      rewrite Hnil. split; vm_compute; reflexivity.
    - destruct (analyzeWith_scores POSITIVE_TERMS NEGATIVE_TERMS content Hne)
        as [Hsen Hen].
      unfold analyzeText. rewrite Hen, Hsen.
      rewrite (hits_specHits _ _ POSITIVE_TERMS_NoDup).
      rewrite (hits_specHits _ _ NEGATIVE_TERMS_NoDup).
      split; reflexivity. }
  destruct Hs as [Hsen Hen]. repeat split; try assumption.
  - rewrite Hsen. now apply clamp_bounds.
  - rewrite Hsen. now apply clamp_bounds.
  - rewrite Hen. now apply clamp_bounds.
  - rewrite Hen. now apply clamp_bounds.
Qed.

Lemma normalize_keep `{CaseMapping} (content token : jsstring) :
  token ∈ normalize content -> keepToken token = true.
Proof.
  unfold normalize. intros Hin.
  now apply list_elem_of_In, filter_In in Hin as [_ Hkeep].
Qed.

Lemma up_not_token `{CaseMapping} (content : jsstring) :
  js "up" ∉ normalize content.
Proof.
  intros Hin. apply normalize_keep, keepToken_length in Hin.
  vm_compute in Hin. lia.
Qed.

Lemma POSITIVE_TERMS_split (x : jsstring) :
  x ∈ POSITIVE_TERMS <-> x = js "up" \/ x ∈ POSITIVE_TERMS_without_up.
Proof.
  change POSITIVE_TERMS
    with (take 10 POSITIVE_TERMS_without_up
          ++ js "up" :: drop 10 POSITIVE_TERMS_without_up).
  rewrite <- (take_drop 10 POSITIVE_TERMS_without_up) at 3.
  rewrite !elem_of_app, elem_of_cons. tauto.
Qed.

Lemma hits_without_up (clean : list jsstring) :
  js "up" ∉ clean ->
  hits POSITIVE_TERMS clean = hits POSITIVE_TERMS_without_up clean.
Proof.
  unfold hits. induction clean as [|x clean IH]; intros Hup; [reflexivity|].
  apply not_elem_of_cons in Hup as [Hne Hup]. cbn [List.filter].
  rewrite (bool_decide_ext (x ∈ POSITIVE_TERMS) (x ∈ POSITIVE_TERMS_without_up)).
  - destruct (bool_decide (x ∈ POSITIVE_TERMS_without_up));
      cbn [length]; rewrite (IH Hup); reflexivity.
  - rewrite POSITIVE_TERMS_split. split; [|tauto].
    intros [Heq|Hin]; [congruence|exact Hin].
Qed.

Lemma analyzeWith_hits_ext `{CaseMapping} (positive positive' negative : list jsstring)
    (content : jsstring) :
  hits positive (normalize content) = hits positive' (normalize content) ->
  analyzeWith positive negative content = analyzeWith positive' negative content.
Proof. intros Hhits. unfold analyzeWith. cbv zeta. rewrite Hhits. reflexivity. Qed.

(** C10. No token is ["up"], so the positive term ["up"] never scores: the
    analysis is the one obtained with that term struck from the list. *)
Theorem up_never_counts `{CaseMapping} (content : jsstring) :
  (js "up" ∉ normalize content)
  /\ analyzeText content
     = analyzeWith POSITIVE_TERMS_without_up NEGATIVE_TERMS content.
Proof.
  split; [apply up_not_token|].
  apply analyzeWith_hits_ext, hits_without_up, up_not_token.
Qed.

(** ** The insight builder *)

(** C7. At most five insights are built. Without keywords they are the three
    baseline insights in their order; otherwise the insight of each cluster,
    computed from its index by the pulse and delta formulas, comes before
    the baseline insights and the list is cut after five entries. *)
Theorem buildInsights_shape `{CaseMapping} (analysis : Analysis) :
  (length (buildInsights analysis) <= 5)%nat
  /\ map Insight.id BASE_INSIGHTS
     = [js "baseline-velocity"; js "baseline-composure"; js "baseline-focus"]
  /\ (keywords analysis = [] -> buildInsights analysis = BASE_INSIGHTS)
  /\ (keywords analysis <> [] ->
      exists dynamic : list Insight.t,
        buildInsights analysis = take 5 (dynamic ++ BASE_INSIGHTS)
        /\ length dynamic = length (clusters analysis)
        /\ forall (i : nat) (cluster : Cluster.t),
             clusters analysis !! i = Some cluster ->
             dynamic !! i
             = Some {| Insight.id :=
                         js "cluster-" ++ toLowerCase (Cluster.label cluster);
                       Insight.label := Cluster.label cluster ++ js " Signal";
                       Insight.detail := Cluster.summary cluster;
                       Insight.pulse :=
                         clamp (0.35 + Cluster.score cluster * 0.55
                                + ofNat i * 0.1) 0.2 0.95;
                       Insight.delta :=
                         clamp (sentiment analysis * 0.6
                                + Cluster.score cluster * 0.3
                                - ofNat i * 0.05) (-0.4) 0.4 |}).
Proof.
  unfold buildInsights. repeat split.
  - case_bool_decide; [simpl; lia|]. rewrite length_take. lia.
  - intros Hnil. rewrite Hnil. reflexivity.
  - intros Hne. rewrite bool_decide_eq_false_2.
    + exists (imap (clusterInsight analysis) (clusters analysis)).
      split; [reflexivity|]. split; [apply length_imap|].
      intros i cluster Hi. rewrite list_lookup_imap, Hi. reflexivity.
    + destruct (keywords analysis); [congruence|discriminate].
Qed.

Lemma buildInsights_shape_witness :
  @buildInsights asciiCase
    {| keywords := []; sentiment := 0; energy := 0; clusters := [] |}
  = BASE_INSIGHTS
  /\ exists dynamic : list Insight.t,
       @buildInsights asciiCase (@analyzeText asciiCase (js "great growth"))
       = take 5 (dynamic ++ BASE_INSIGHTS)
       /\ length dynamic = 2%nat.
Proof.
  split.
  - apply (proj1 (proj2 (proj2 (@buildInsights_shape asciiCase
             {| keywords := []; sentiment := 0; energy := 0; clusters := [] |})))).
    reflexivity.
  - destruct (proj2 (proj2 (proj2 (@buildInsights_shape asciiCase
                (@analyzeText asciiCase (js "great growth"))))))
      as (dynamic & Hbuild & Hlen & _).
    + vm_compute. discriminate.
    + exists dynamic. split; [exact Hbuild|exact Hlen].
Defined.

(** ** The session transition *)

Lemma trimStart_nil (s : jsstring) :
  trimStart s = [] <-> Forall (fun c => isSpace c = true) s.
Proof.
  induction s as [|c s IH]; simpl; [split; [constructor|reflexivity]|].
  destruct (isSpace c) eqn:Ec.
  - rewrite IH, Forall_cons. cbv beta. tauto.
  - rewrite Forall_cons. split; [discriminate|]. intros [Hc _]. congruence.
Qed.

Lemma trimStart_spaces (s : jsstring) :
  Forall (fun c => isSpace c = true) (trimStart s) -> trimStart s = [].
Proof.
  induction s as [|c s IH]; simpl; [reflexivity|].
  destruct (isSpace c) eqn:Ec; [exact IH|].
  rewrite Forall_cons. intros [Hc _]. congruence.
Qed.

(** The fragments that trim to the empty string are the blank ones. *)
Lemma trim_blank (s : jsstring) :
  trim s = [] <-> Forall (fun c => isSpace c = true) s.
Proof.
  unfold trim. rewrite <- trimStart_nil. split.
  - intros Hnil. apply (f_equal reverse) in Hnil.
    rewrite reverse_involutive, reverse_nil in Hnil.
    apply trimStart_nil in Hnil. rewrite Forall_reverse in Hnil.
    now apply trimStart_spaces.
  - intros ->. reflexivity.
Qed.

Lemma processChunk_blank_frame `{CaseMapping} (clock : Ticks) (st : Session)
    (content : jsstring) :
  trim content = [] -> processChunk clock st content = st.
Proof.
  intros Hblank. unfold processChunk. rewrite Hblank. reflexivity.
Qed.

(** C6. A fragment that trims to the empty string leaves the whole session
    as it was: no segment, no corpus change, no new reply. *)
Theorem processChunk_blank `{CaseMapping} (clock : Ticks) (st : Session)
    (content : jsstring) :
  trim content = [] -> processChunk clock st content = st.
Proof.
  intros Hblank. unfold processChunk.
  rewrite (bool_decide_eq_true_2 _ Hblank). reflexivity.
Qed.

Lemma processChunk_blank_witness :
  @processChunk asciiCase (mkTicks 7 7 7) (initialSession 3) [32; 9; 160; 10]%N
  = initialSession 3.
Proof.
  apply (@processChunk_blank asciiCase). vm_compute. reflexivity.
Defined.

Lemma handleManualSubmit_blank `{CaseMapping} (clock : Ticks) (st : Session) :
  trim (manualInput st) = [] -> handleManualSubmit clock st = st.
Proof.
  intros Hblank. unfold handleManualSubmit. rewrite Hblank. reflexivity.
Qed.

Lemma sliceLast6_length {A : Type} (l : list A) :
  (length (sliceLast6 l) <= 6)%nat.
Proof. unfold sliceLast6. rewrite length_drop. lia. Qed.

Lemma sliceLast6_short {A : Type} (l : list A) :
  (length l <= 6)%nat -> sliceLast6 l = l.
Proof.
  intros Hlen. unfold sliceLast6.
  replace (length l - 6)%nat with 0%nat by lia. reflexivity.
Qed.

Lemma sliceLast6_map {A B : Type} (f : A -> B) (l : list A) :
  map f (sliceLast6 l) = sliceLast6 (map f l).
Proof. unfold sliceLast6. now rewrite length_map, skipn_map. Qed.

(** Cutting early does not change what the cut after more insertions keeps. *)
Lemma sliceLast6_app {A : Type} (l r : list A) :
  sliceLast6 (sliceLast6 l ++ r) = sliceLast6 (l ++ r).
Proof.
  unfold sliceLast6.
  rewrite <- (drop_app_le l r (length l - 6)) by lia.
  rewrite drop_drop. f_equal.
  rewrite length_drop, !length_app. lia.
Qed.

Lemma processChunk_segments `{CaseMapping} (clock : Ticks) (st : Session)
    (content : jsstring) :
  trim content <> [] ->
  map trailEntry (segments (processChunk clock st content))
  = sliceLast6 (map trailEntry (segments st)
                ++ [(trim content, stampNow clock)]).
Proof.
  intros Hne. unfold processChunk.
  rewrite bool_decide_eq_false_2 by exact Hne. cbn [segments].
  rewrite sliceLast6_map, map_app. reflexivity.
Qed.

Lemma accepted_cons (clock : Ticks) (content : jsstring)
    (rest : list (Ticks * jsstring)) :
  accepted ((clock, content) :: rest)
  = if bool_decide (trim content = []) then accepted rest
    else (trim content, stampNow clock) :: accepted rest.
Proof.
  unfold accepted. simpl. destruct (bool_decide (trim content = [])); reflexivity.
Qed.

Lemma submitAll_cons `{CaseMapping} (st : Session) (clock : Ticks)
    (content : jsstring) (rest : list (Ticks * jsstring)) :
  submitAll st ((clock, content) :: rest)
  = submitAll (processChunk clock st content) rest.
Proof. reflexivity. Qed.

Lemma submitAll_trail `{CaseMapping} (fragments : list (Ticks * jsstring)) :
  forall st : Session,
    (length (segments st) <= 6)%nat ->
    map trailEntry (segments (submitAll st fragments))
    = sliceLast6 (map trailEntry (segments st) ++ accepted fragments).
Proof.
  induction fragments as [|[clock content] rest IH]; intros st Hlen.
  - simpl. rewrite app_nil_r, sliceLast6_short; [reflexivity|].
    now rewrite length_map.
  - rewrite submitAll_cons, accepted_cons.
    destruct (decide (trim content = [])) as [Hblank|Hne].
    + rewrite processChunk_blank_frame by exact Hblank.
      rewrite bool_decide_eq_true_2 by exact Hblank. now apply IH.
    + rewrite bool_decide_eq_false_2 by exact Hne.
      rewrite IH.
      * rewrite processChunk_segments by exact Hne.
        rewrite sliceLast6_app, <- app_assoc. reflexivity.
      * rewrite <- (length_map trailEntry), processChunk_segments by exact Hne.
        apply sliceLast6_length.
Qed.

Lemma trail_texts (l : list Segment.t) :
  map Segment.text l = map fst (map trailEntry l).
Proof. rewrite map_map. reflexivity. Qed.

(** C5. The trail never holds more than six segments, and it holds the last
    six accepted fragments, texts and timestamps, in the order in which they
    were accepted; after the eight fragments "one" to "eight" it holds
    "three" to "eight". The statement is about every submission sequence,
    hence about the trail after each of its prefixes. *)
Theorem trail_bounded_fifo `{CaseMapping} (mounted : N)
    (fragments : list (Ticks * jsstring)) :
  let st := submitAll (initialSession mounted) fragments in
  (length (segments st) <= 6)%nat
  /\ map trailEntry (segments st) = sliceLast6 (accepted fragments)
  /\ forall c1 c2 c3 c4 c5 c6 c7 c8 : Ticks,
       map Segment.text
         (segments
            (submitAll (initialSession mounted)
               [(c1, js "one"); (c2, js "two"); (c3, js "three");
                (c4, js "four"); (c5, js "five"); (c6, js "six");
                (c7, js "seven"); (c8, js "eight")]))
       = [js "three"; js "four"; js "five"; js "six"; js "seven"; js "eight"].
Proof.
  assert (Htrail : forall frs,
             map trailEntry (segments (submitAll (initialSession mounted) frs))
             = sliceLast6 (accepted frs)).
  { intros frs. rewrite submitAll_trail by (simpl; lia). reflexivity. }
  intros st. subst st. split; [|split].
  - rewrite <- (length_map trailEntry), Htrail. apply sliceLast6_length.
  - apply Htrail.
  - intros c1 c2 c3 c4 c5 c6 c7 c8.
    rewrite trail_texts, Htrail. reflexivity.
Qed.

Lemma processChunk_compiledText `{CaseMapping} (clock : Ticks) (st : Session)
    (content : jsstring) :
  trim content <> [] ->
  compiledText (processChunk clock st content)
  = if bool_decide (compiledText st = []) then trim content
    else compiledText st ++ js " " ++ trim content.
Proof.
  intros Hne. unfold processChunk.
  rewrite bool_decide_eq_false_2 by exact Hne. reflexivity.
Qed.

Lemma normalize_ascii `{CaseMapping} (content : jsstring) :
  isAscii content -> normalize content = @normalize asciiCase content.
Proof. intros Hascii. unfold normalize. now rewrite toLowerCase_ascii. Qed.

Lemma sentiment_of_tokens `{CaseMapping} (content : jsstring) :
  normalize content <> [] ->
  sentiment (analyzeText content)
  = clamp ((ofNat (hits POSITIVE_TERMS (normalize content))
            - ofNat (hits NEGATIVE_TERMS (normalize content)))
           / ofNat (Nat.max (length (normalize content)) 4)) (-1) 1.
Proof.
  intros Hne.
  exact (proj1 (analyzeWith_scores POSITIVE_TERMS NEGATIVE_TERMS content Hne)).
Qed.

(** C9. After "This is a great win for the team" the sentiment of the corpus
    is positive (it is 1/2); after "but I'm worried about the risk" the
    sentiment of the combined corpus is lower (it is 1/7) and within
    [-1, 1]. *)
Theorem great_win_then_risk `{CaseMapping} (mounted : N) (c1 c2 : Ticks) :
  let s1 := processChunk c1 (initialSession mounted)
              (js "This is a great win for the team") in
  let s2 := processChunk c2 s1 (js "but I'm worried about the risk") in
  0 < sentiment (analysisOf s1)
  /\ sentiment (analysisOf s2) < sentiment (analysisOf s1)
  /\ -1 <= sentiment (analysisOf s2) /\ sentiment (analysisOf s2) <= 1
  /\ sentiment (analysisOf s1) == 1 # 2
  /\ sentiment (analysisOf s2) == 1 # 7.
Proof.
  intros s1 s2.
  assert (Ht1 : compiledText s1 = js "This is a great win for the team").
  { subst s1. rewrite processChunk_compiledText by (vm_compute; discriminate).
    reflexivity. }
  assert (Ht2 : compiledText s2
                = js "This is a great win for the team but I'm worried about the risk").
  { subst s2. rewrite processChunk_compiledText by (vm_compute; discriminate).
    rewrite Ht1. reflexivity. }
  assert (Hn1 : normalize (compiledText s1) = map js ["great"; "win"; "for"; "team"]%string).
  { rewrite Ht1, normalize_ascii; [vm_compute; reflexivity|].
    apply (bool_decide_unpack _). vm_compute. exact I. }
  assert (Hn2 : normalize (compiledText s2)
                = map js ["great"; "win"; "for"; "team"; "but"; "worried"; "risk"]%string).
  { rewrite Ht2, normalize_ascii; [vm_compute; reflexivity|].
    apply (bool_decide_unpack _). vm_compute. exact I. }
  assert (Hs1 : sentiment (analysisOf s1) = 2 # 4).
  { unfold analysisOf. rewrite sentiment_of_tokens by (rewrite Hn1; discriminate).
    rewrite Hn1. vm_compute. reflexivity. }
  assert (Hs2 : sentiment (analysisOf s2) = 1 # 7).
  { unfold analysisOf. rewrite sentiment_of_tokens by (rewrite Hn2; discriminate).
    rewrite Hn2. vm_compute. reflexivity. }
  rewrite Hs1, Hs2. repeat split; vm_compute; congruence.
Qed.

(** C1, as the code has it: the counter in a segment id is the length of the
    trail, which stays at six once the trail is full. After six fragments,
    two more that are accepted within the same millisecond (7000 here) get
    the same id, and both stay in the trail. *)
Theorem segment_ids_collide :
  let st :=
    @submitAll asciiCase (initialSession 0)
      [(mkTicks 1000 1000 1000, js "one"); (mkTicks 2000 2000 2000, js "two");
       (mkTicks 3000 3000 3000, js "three"); (mkTicks 4000 4000 4000, js "four");
       (mkTicks 5000 5000 5000, js "five"); (mkTicks 6000 6000 6000, js "six");
       (mkTicks 7000 7000 7000, js "seven"); (mkTicks 7000 7000 7000, js "eight")] in
  map Segment.id (segments st)
  = map js ["3000-2"; "4000-3"; "5000-4"; "6000-5"; "7000-6"; "7000-6"]%string
  /\ map Segment.text (segments st)
     = map js ["three"; "four"; "five"; "six"; "seven"; "eight"]%string
  /\ ~ NoDup (map Segment.id (segments st)).
Proof.
  split; [|split].
  - vm_compute. reflexivity.
  - vm_compute. reflexivity.
  - apply (bool_decide_unpack _). vm_compute. exact I.
Qed.

(** A freshly mounted page shows the baseline insights. *)
Lemma insightsOf_initial `{CaseMapping} (mounted : N) :
  insightsOf (initialSession mounted) = BASE_INSIGHTS.
Proof.
  unfold insightsOf, analysisOf, analyzeText. cbn [compiledText initialSession].
  rewrite analyzeWith_empty by apply normalize_nil. reflexivity.
Qed.

(** ** The keyword extractor *)

Lemma occurrences_cons (k t : jsstring) (ts : list jsstring) :
  occurrences k (t :: ts)
  = if decide (t = k) then S (occurrences k ts) else occurrences k ts.
Proof.
  unfold occurrences. cbn [List.filter].
  destruct (decide (t = k)) as [Heq|Hne].
  - now rewrite bool_decide_eq_true_2.
  - now rewrite bool_decide_eq_false_2.
Qed.

Lemma occurrences_pos (k : jsstring) (ts : list jsstring) :
  k ∈ ts -> (0 < occurrences k ts)%nat.
Proof.
  induction ts as [|t ts IH]; intros Hin; [now apply elem_of_nil in Hin|].
  rewrite occurrences_cons. destruct (decide (t = k)); [lia|].
  apply elem_of_cons in Hin as [Heq|Hin]; [congruence|now apply IH].
Qed.

Lemma bump_absent (t : jsstring) (m : FreqMap) :
  t ∉ map fst m -> bump t m = m.
Proof.
  induction m as [|[k v] m IH]; intros Hnin; [reflexivity|].
  cbn in Hnin. apply not_elem_of_cons in Hnin as [Hne Hnin].
  unfold bump in *. cbn [map fst]. rewrite IH by exact Hnin.
  destruct (decide (k = t)); [congruence|reflexivity].
Qed.

Lemma bump_keys (t : jsstring) (m : FreqMap) :
  map fst (bump t m) = map fst m.
Proof.
  unfold bump. rewrite map_map. apply map_ext.
  intros [k v]. cbn. now destruct (decide (k = t)).
Qed.

Lemma countToken_present (t : jsstring) (m : FreqMap) :
  NoDup (map fst m) -> t ∈ map fst m -> countToken m t = bump t m.
Proof.
  unfold countToken.
  induction m as [|[k v] m IH]; intros Hnd Hin; [now apply elem_of_nil in Hin|].
  cbn in Hnd, Hin. apply NoDup_cons in Hnd as [Hk Hnd].
  cbn [mapGet mapSet]. destruct (decide (k = t)) as [->|Hne].
  - cbn [default]. change (bump t ((t, v) :: m))
      with ((if decide (t = t) then (t, S v) else (t, v)) :: bump t m).
    rewrite decide_True by reflexivity. rewrite bump_absent by exact Hk.
    now rewrite Nat.add_1_r.
  - apply elem_of_cons in Hin as [Heq|Hin]; [congruence|].
    rewrite (IH Hnd Hin).
    change (bump t ((k, v) :: m))
      with ((if decide (k = t) then (k, S v) else (k, v)) :: bump t m).
    now rewrite decide_False by exact Hne.
Qed.

Lemma mapGet_absent (t : jsstring) (m : FreqMap) :
  t ∉ map fst m -> mapGet t m = None.
Proof.
  induction m as [|[k v] m IH]; intros Hnin; [reflexivity|].
  cbn in Hnin. apply not_elem_of_cons in Hnin as [Hne Hnin].
  cbn [mapGet]. rewrite decide_False by congruence. now apply IH.
Qed.

Lemma mapSet_absent (t : jsstring) (v : nat) (m : FreqMap) :
  t ∉ map fst m -> mapSet t v m = m ++ [(t, v)].
Proof.
  induction m as [|[k w] m IH]; intros Hnin; [reflexivity|].
  cbn in Hnin. apply not_elem_of_cons in Hnin as [Hne Hnin].
  cbn [mapSet]. rewrite decide_False by congruence.
  now rewrite IH.
Qed.

Lemma countToken_absent (t : jsstring) (m : FreqMap) :
  t ∉ map fst m -> countToken m t = m ++ [(t, 1%nat)].
Proof.
  intros Hnin. unfold countToken.
  rewrite mapGet_absent by exact Hnin. now apply mapSet_absent.
Qed.

Lemma mapGet_present (t : jsstring) (v : nat) (m : FreqMap) :
  NoDup (map fst m) -> (t, v) ∈ m -> mapGet t m = Some v.
Proof.
  induction m as [|[k w] m IH]; intros Hnd Hin; [now apply elem_of_nil in Hin|].
  cbn in Hnd. apply NoDup_cons in Hnd as [Hk Hnd]. cbn [mapGet].
  apply elem_of_cons in Hin as [Heq|Hin].
  - inversion Heq; subst. now rewrite decide_True.
  - destruct (decide (k = t)) as [->|Hne]; [|now apply IH].
    exfalso. apply Hk. apply list_elem_of_In, in_map_iff.
    exists (t, v). split; [reflexivity|now apply list_elem_of_In].
Qed.

Lemma filter_andb {A : Type} (f g : A -> bool) (l : list A) :
  List.filter (fun x => f x && g x) l = List.filter f (List.filter g l).
Proof.
  induction l as [|x l IH]; [reflexivity|]. cbn [List.filter].
  destruct (g x); cbn [List.filter]; destruct (f x); cbn; now rewrite IH.
Qed.

Lemma filter_ext_elem {A : Type} (f g : A -> bool) (l : list A) :
  (forall x, x ∈ l -> f x = g x) -> List.filter f l = List.filter g l.
Proof.
  intros Hext. apply List.filter_ext_in. intros x Hx.
  now apply Hext, list_elem_of_In.
Qed.

Lemma map_ext_elem {A B : Type} (f g : A -> B) (l : list A) :
  (forall x, x ∈ l -> f x = g x) -> map f l = map g l.
Proof.
  intros Hext. apply map_ext_in. intros x Hx. now apply Hext, list_elem_of_In.
Qed.

Lemma elem_of_filter_bool {A : Type} (f : A -> bool) (l : list A) (x : A) :
  x ∈ List.filter f l <-> x ∈ l /\ f x = true.
Proof. rewrite !list_elem_of_In. apply filter_In. Qed.

Lemma elem_of_map_fst (k : jsstring) (m : FreqMap) :
  k ∈ map fst m <-> exists v, (k, v) ∈ m.
Proof.
  rewrite list_elem_of_In, in_map_iff. split.
  - intros [[k' v] [Heq Hin]]. cbn in Heq. subst. exists v.
    now apply list_elem_of_In.
  - intros [v Hin]. exists (k, v). split; [reflexivity|now apply list_elem_of_In].
Qed.

(** The map after the tokens [ts] have been counted into the map [m]: the
    entries of [m] in place with their counts raised, then the new tokens in
    the order in which they are seen first. *)
Lemma fold_countToken (ts : list jsstring) :
  forall m : FreqMap,
    NoDup (map fst m) ->
    fold_left countToken ts m
    = map (fun kv => (fst kv, (snd kv + occurrences (fst kv) ts)%nat)) m
      ++ map (fun t => (t, occurrences t ts))
           (List.filter (fun t => negb (bool_decide (t ∈ map fst m)))
              (firstSeen ts)).
Proof.
  induction ts as [|t ts IH]; intros m Hnd.
  - cbn. rewrite app_nil_r. rewrite <- (map_id m) at 1. apply map_ext.
    intros [k v]. cbn. now rewrite Nat.add_0_r.
  - cbn [fold_left firstSeen List.filter].
    destruct (decide (t ∈ map fst m)) as [Hin|Hnin].
    + rewrite countToken_present by assumption.
      rewrite IH by now rewrite bump_keys.
      rewrite bump_keys, (bool_decide_eq_true_2 _ Hin). cbn [negb].
      f_equal.
      * unfold bump. rewrite map_map. apply map_ext. intros [k v].
        cbn [fst snd]. rewrite occurrences_cons.
        destruct (decide (k = t)) as [->|Hne]; cbn [fst snd].
        -- rewrite decide_True by reflexivity. f_equal. lia.
        -- rewrite (decide_False (P := t = k)) by congruence. reflexivity.
      * rewrite <- filter_andb.
        rewrite (filter_ext_elem
                   (fun x => negb (bool_decide (x ∈ map fst m))
                             && negb (bool_decide (x = t)))
                   (fun x => negb (bool_decide (x ∈ map fst m)))).
        -- apply map_ext_elem. intros x Hx.
           apply elem_of_filter_bool in Hx as [_ Hx].
           apply negb_true_iff, bool_decide_eq_false in Hx.
           rewrite occurrences_cons, decide_False; [reflexivity|].
           intros ->. contradiction.
        -- intros x _. destruct (decide (x = t)) as [->|Hne].
           ++ now rewrite (bool_decide_eq_true_2 _ Hin).
           ++ rewrite (bool_decide_eq_false_2 (x = t)) by exact Hne.
              apply andb_true_r.
    + rewrite countToken_absent by assumption.
      assert (Hkeys : map fst (m ++ [(t, 1%nat)]) = map fst m ++ [t])
        by now rewrite map_app.
      rewrite IH.
      2:{ rewrite Hkeys. apply NoDup_app. split; [exact Hnd|]. split.
          - intros x Hx Hx'. apply list_elem_of_singleton in Hx'. now subst.
          - apply NoDup_singleton. }
      rewrite Hkeys, (bool_decide_eq_false_2 _ Hnin). cbn [negb map].
      rewrite map_app, <- app_assoc. cbn [map app fst snd]. f_equal.
      * apply map_ext_elem. intros [k v] Hkv. cbn [fst snd].
        rewrite occurrences_cons, decide_False; [reflexivity|].
        intros ->. apply Hnin, elem_of_map_fst. now exists v.
      * rewrite occurrences_cons, decide_True by reflexivity. f_equal.
        rewrite <- filter_andb.
        rewrite (filter_ext_elem
                   (fun x => negb (bool_decide (x ∈ map fst m ++ [t])))
                   (fun x => negb (bool_decide (x ∈ map fst m))
                             && negb (bool_decide (x = t)))).
        -- apply map_ext_elem. intros x Hx.
           apply elem_of_filter_bool in Hx as [_ Hx].
           apply andb_true_iff in Hx as [_ Hx].
           apply negb_true_iff, bool_decide_eq_false in Hx.
           rewrite occurrences_cons, decide_False; [reflexivity|congruence].
        -- intros x _. rewrite <- negb_orb. f_equal.
           destruct (decide (x ∈ map fst m)) as [Hx|Hx];
             destruct (decide (x = t)) as [Hxt|Hxt].
           ++ rewrite !bool_decide_eq_true_2; auto.
              apply elem_of_app; now left.
           ++ rewrite (bool_decide_eq_true_2 (x ∈ map fst m)) by exact Hx.
              rewrite bool_decide_eq_true_2; [reflexivity|].
              apply elem_of_app; now left.
           ++ rewrite (bool_decide_eq_true_2 (x = t)) by exact Hxt.
              rewrite bool_decide_eq_true_2; [now rewrite orb_true_r|].
              apply elem_of_app; right. subst. apply list_elem_of_singleton.
              reflexivity.
           ++ rewrite !bool_decide_eq_false_2; auto.
              intros Hin. apply elem_of_app in Hin as [?|Hin]; [contradiction|].
              apply list_elem_of_singleton in Hin. contradiction.
Qed.

Lemma frequencyOf_firstSeen (clean : list jsstring) :
  frequencyOf clean
  = map (fun t => (t, occurrences t clean)) (firstSeen clean).
Proof.
  unfold frequencyOf. rewrite fold_countToken by constructor. cbn [map app].
  f_equal. induction (firstSeen clean) as [|x l IH]; [reflexivity|].
  cbn. now rewrite IH.
Qed.

Lemma elem_of_firstSeen (t : jsstring) (ts : list jsstring) :
  t ∈ firstSeen ts <-> t ∈ ts.
Proof.
  induction ts as [|x ts IH]; [reflexivity|]. cbn [firstSeen].
  rewrite !elem_of_cons, elem_of_filter_bool, IH, negb_true_iff,
    bool_decide_eq_false.
  destruct (decide (t = x)); tauto.
Qed.

Lemma NoDup_firstSeen (ts : list jsstring) : NoDup (firstSeen ts).
Proof.
  induction ts as [|x ts IH]; [constructor|]. cbn [firstSeen].
  apply NoDup_cons. split.
  - rewrite elem_of_filter_bool, negb_true_iff, bool_decide_eq_false. tauto.
  - apply NoDup_ListNoDup, List.NoDup_filter. now apply NoDup_ListNoDup.
Qed.

Lemma StronglySorted_impl_elem {A : Type} (R R' : A -> A -> Prop) (l : list A) :
  (forall a b, a ∈ l -> b ∈ l -> R a b -> R' a b) ->
  StronglySorted R l -> StronglySorted R' l.
Proof.
  intros Himpl Hsorted. induction Hsorted as [|x l Hl IH Hx]; constructor.
  - apply IH. intros a b Ha Hb. apply Himpl; now right.
  - rewrite Forall_forall in *. intros b Hb.
    apply Himpl; [left|now right|now apply Hx].
Qed.

Lemma StronglySorted_filter_bool {A : Type} (R : A -> A -> Prop)
    (f : A -> bool) (l : list A) :
  StronglySorted R l -> StronglySorted R (List.filter f l).
Proof.
  induction 1 as [|x l Hl IH Hx]; cbn [List.filter]; [constructor|].
  destruct (f x); [|exact IH]. constructor; [exact IH|].
  rewrite Forall_forall in *. intros b Hb.
  apply elem_of_filter_bool in Hb as [Hb _]. now apply Hx.
Qed.

Lemma StronglySorted_map {A B : Type} (R : B -> B -> Prop) (f : A -> B)
    (l : list A) :
  StronglySorted (fun a b => R (f a) (f b)) l -> StronglySorted R (map f l).
Proof.
  induction 1 as [|x l Hl IH Hx]; cbn [map]; constructor; [exact IH|].
  rewrite Forall_forall. intros b Hb.
  apply list_elem_of_In, in_map_iff in Hb as [a [<- Ha]].
  rewrite Forall_forall in Hx. now apply Hx, list_elem_of_In.
Qed.

(** The distinct tokens come in the order of their first positions. *)
Lemma firstSeen_sorted (ts : list jsstring) :
  StronglySorted (fun a b => (firstIndex a ts < firstIndex b ts)%nat)
    (firstSeen ts).
Proof.
  induction ts as [|x ts IH]; [constructor|]. cbn [firstSeen]. constructor.
  - apply StronglySorted_filter_bool with (f := fun y => negb (bool_decide (y = x)))
      in IH.
    revert IH. apply StronglySorted_impl_elem. intros a b Ha Hb Hlt.
    apply elem_of_filter_bool in Ha as [_ Ha], Hb as [_ Hb].
    apply negb_true_iff, bool_decide_eq_false in Ha, Hb.
    cbn [firstIndex]. rewrite !decide_False by congruence. lia.
  - rewrite Forall_forall. intros b Hb.
    apply elem_of_filter_bool in Hb as [_ Hb].
    apply negb_true_iff, bool_decide_eq_false in Hb.
    cbn [firstIndex]. rewrite decide_True by reflexivity.
    rewrite decide_False by congruence. lia.
Qed.

(** *** The stable sort *)

Lemma insertBy_perm {A : Type} (cmp : A -> A -> Z) (x : A) (l : list A) :
  insertBy cmp x l ≡ₚ x :: l.
Proof.
  induction l as [|y l IH]; cbn [insertBy]; [reflexivity|].
  destruct (cmp x y <=? 0)%Z; [reflexivity|].
  rewrite IH. apply Permutation_swap.
Qed.

Lemma sortBy_perm {A : Type} (cmp : A -> A -> Z) (l : list A) :
  sortBy cmp l ≡ₚ l.
Proof.
  induction l as [|x l IH]; cbn [sortBy]; [reflexivity|].
  now rewrite insertBy_perm, IH.
Qed.

Section Stable.
Context (before : jsstring * nat -> jsstring * nat -> Prop).

Lemma insertBy_sorted (x : jsstring * nat) (s : list (jsstring * nat)) :
  StronglySorted (countThenBefore before) s ->
  Forall (before x) s ->
  StronglySorted (countThenBefore before) (insertBy byCountDesc x s).
Proof.
  induction 1 as [|y s Hs IH Hy]; intros Hx; cbn [insertBy].
  - repeat constructor.
  - apply Forall_cons in Hx as [Hxy Hxs].
    destruct (byCountDesc x y <=? 0)%Z eqn:Hcmp.
    + apply Z.leb_le in Hcmp. unfold byCountDesc in Hcmp.
      constructor; [now constructor|].
      constructor.
      * unfold countThenBefore. destruct (decide (snd x = snd y)); [right|left]; [auto|lia].
      * rewrite Forall_forall in *. intros z Hz.
        specialize (Hy z Hz). specialize (Hxs z Hz).
        unfold countThenBefore in *.
        destruct (decide (snd x = snd z)); [right|left]; [auto|lia].
    + apply Z.leb_gt in Hcmp. unfold byCountDesc in Hcmp.
      constructor; [now apply IH|].
      rewrite Forall_forall. intros z Hz.
      rewrite insertBy_perm in Hz. apply elem_of_cons in Hz as [->|Hz].
      * left. lia.
      * rewrite Forall_forall in Hy. now apply Hy.
Qed.

Lemma sortBy_sorted (l : list (jsstring * nat)) :
  StronglySorted before l ->
  StronglySorted (countThenBefore before) (sortBy byCountDesc l).
Proof.
  induction 1 as [|x l Hl IH Hx]; cbn [sortBy]; [constructor|].
  apply insertBy_sorted; [exact IH|].
  rewrite Forall_forall in *. intros z Hz. apply Hx.
  now rewrite sortBy_perm in Hz.
Qed.

End Stable.

Lemma analyzeWith_keywords `{CaseMapping} (positive negative : list jsstring)
    (content : jsstring) :
  normalize content <> [] ->
  keywords (analyzeWith positive negative content)
  = take 6 (map fst (sortBy byCountDesc (frequencyOf (normalize content)))).
Proof.
  intros Hne. unfold analyzeWith.
  rewrite bool_decide_eq_false_2.
  - cbn [keywords]. now rewrite firstn_map.
  - destruct (normalize content); [congruence|discriminate].
Qed.

(** The ranking of the distinct tokens that the extractor computes. *)
Lemma ranking_of_tokens (tokens : list jsstring) :
  let ranked := map fst (sortBy byCountDesc (frequencyOf tokens)) in
  NoDup ranked
  /\ (forall t, t ∈ ranked <-> t ∈ tokens)
  /\ StronglySorted (ranksBefore tokens) ranked.
Proof.
  intros ranked. subst ranked. rewrite frequencyOf_firstSeen.
  set (entries := map (fun t => (t, occurrences t tokens)) (firstSeen tokens)).
  assert (Hkeys : map fst entries = firstSeen tokens).
  { subst entries. rewrite map_map. cbn [fst]. apply map_id. }
  assert (Hperm : map fst (sortBy byCountDesc entries) ≡ₚ firstSeen tokens).
  { rewrite <- Hkeys. apply Permutation_map, sortBy_perm. }
  split; [|split].
  - rewrite Hperm. apply NoDup_firstSeen.
  - intros t. rewrite Hperm. apply elem_of_firstSeen.
  - apply StronglySorted_map.
    pose proof (sortBy_sorted
                  (fun a b => (firstIndex (fst a) tokens
                               < firstIndex (fst b) tokens)%nat) entries)
      as Hsorted.
    eapply StronglySorted_impl_elem; [|apply Hsorted].
    + assert (Hcount : forall a, a ∈ sortBy byCountDesc entries ->
                                 snd a = occurrences (fst a) tokens).
      { intros a Ha. rewrite sortBy_perm in Ha. subst entries.
        apply list_elem_of_In, in_map_iff in Ha as [t [<- _]]. reflexivity. }
      intros a b Ha Hb Hab. unfold ranksBefore, countThenBefore in *.
      now rewrite <- (Hcount a Ha), <- (Hcount b Hb).
    + subst entries. apply StronglySorted_map. cbn [fst].
      apply firstSeen_sorted.
Qed.

(** C4. The keywords are the first six entries of the ranking of the distinct
    tokens by descending number of occurrences, tokens with equally many
    occurrences standing in the order in which they are seen first; so they
    are at most six and all of them are tokens. *)
Theorem keywords_ranked `{CaseMapping} (content : jsstring) :
  let tokens := normalize content in
  let kws := keywords (analyzeText content) in
  (length kws <= 6)%nat
  /\ (forall t, t ∈ kws -> t ∈ tokens)
  /\ exists ranked : list jsstring,
       kws = take 6 ranked
       /\ NoDup ranked
       /\ (forall t, t ∈ ranked <-> t ∈ tokens)
       /\ StronglySorted (ranksBefore tokens) ranked.
Proof.
  intros tokens kws.
  assert (Hranked : exists ranked : list jsstring,
             kws = take 6 ranked
             /\ NoDup ranked
             /\ (forall t, t ∈ ranked <-> t ∈ tokens)
             /\ StronglySorted (ranksBefore tokens) ranked).
  { destruct (decide (tokens = [])) as [Hnil|Hne].
    - exists []. subst kws. unfold analyzeText.
      rewrite analyzeWith_empty by exact Hnil. rewrite Hnil.
      repeat split; try constructor; auto.
    - exists (map fst (sortBy byCountDesc (frequencyOf tokens))).
      split; [now apply analyzeWith_keywords|apply ranking_of_tokens]. }
  destruct Hranked as (ranked & Hkws & Hnd & Hmem & Hsorted).
  split; [|split].
  - rewrite Hkws, length_take. lia.
  - intros t Ht. apply Hmem. rewrite Hkws in Ht.
    exact (subseteq_take 6 ranked t Ht).
  - exists ranked. auto.
Qed.

Lemma keywords_ranked_witness :
  js "growth" ∈ @normalize asciiCase (js "risk growth win growth RISK").
Proof.
  apply (proj1 (proj2 (@keywords_ranked asciiCase
                         (js "risk growth win growth RISK")))).
  apply list_elem_of_In. vm_compute. right; left; reflexivity.
Defined.

Example keywords_demo :
  keywords (@analyzeText asciiCase
              (js "delta alpha beta gamma beta alpha epsilon zeta eta theta"))
  = map js ["alpha"; "beta"; "delta"; "gamma"; "epsilon"; "zeta"]%string.
Proof. vm_compute. reflexivity. Qed.

(** ** Further properties: scores and gauges *)

Lemma clamp_cases (value lo hi : Q) :
  lo <= hi ->
  (value <= lo /\ clamp value lo hi == lo)
  \/ (lo <= value /\ value <= hi /\ clamp value lo hi == value)
  \/ (hi <= value /\ clamp value lo hi == hi).
Proof.
  intros Hle. unfold clamp.
  destruct (Q.max_spec lo value) as [[Hlt Hmax]|[Hge Hmax]];
    destruct (Q.min_spec hi (Qmax lo value)) as [[Hlt' Hmin]|[Hge' Hmin]];
    rewrite Hmin; rewrite Hmax in *.
  - right; right. split; [lra|reflexivity].
  - right; left. repeat split; lra.
  - left. split; [lra|]. lra.
  - left. split; [lra|reflexivity].
Qed.

Lemma mathRound_inject (z : Z) : mathRound (inject_Z z) = z.
Proof.
  unfold mathRound, Qfloor, Qplus, inject_Z. cbn [Qnum Qden].
  symmetry. apply (Z.div_unique _ _ _ 1%Z); lia.
Qed.

Lemma mathRound_bounds (lo hi : Z) (x : Q) :
  inject_Z lo <= x -> x <= inject_Z hi ->
  (lo <= mathRound x /\ mathRound x <= hi)%Z.
Proof.
  intros Hlo Hhi. split.
  - rewrite <- (mathRound_inject lo) at 1.
    unfold mathRound. apply Qfloor_resp_le. lra.
  - rewrite <- (mathRound_inject hi).
    unfold mathRound. apply Qfloor_resp_le. lra.
Qed.

Lemma analyzeText_bounds `{CaseMapping} (content : jsstring) :
  (-1 <= sentiment (analyzeText content) /\ sentiment (analyzeText content) <= 1)
  /\ (0 <= energy (analyzeText content) /\ energy (analyzeText content) <= 1).
Proof.
  unfold analyzeText. destruct (decide (normalize content = [])) as [Hnil|Hne].
  - rewrite analyzeWith_empty by exact Hnil. cbn. lra.
  - destruct (analyzeWith_scores POSITIVE_TERMS NEGATIVE_TERMS content Hne)
      as [Hsen Hen].
    rewrite Hen, Hsen. split; apply clamp_bounds; lra.
Qed.

Lemma BASE_INSIGHTS_gauges :
  Forall (fun insight =>
            (0.2 <= Insight.pulse insight /\ Insight.pulse insight <= 0.95)
            /\ (-0.4 <= Insight.delta insight /\ Insight.delta insight <= 0.4))
    BASE_INSIGHTS.
Proof. repeat constructor; cbn; lra. Qed.

(** X1. Whatever the analysis, every insight that is built has its pulse in
    [0.2, 0.95] and its delta in [-0.4, 0.4], so the bar of a card is between
    20 and 95 percent wide and its drift between -40 and 40. *)
Theorem buildInsights_gauges `{CaseMapping} (analysis : Analysis) :
  Forall (fun insight =>
            (0.2 <= Insight.pulse insight /\ Insight.pulse insight <= 0.95)
            /\ (-0.4 <= Insight.delta insight /\ Insight.delta insight <= 0.4)
            /\ (20 <= pulsePercent insight /\ pulsePercent insight <= 95)%Z
            /\ (-40 <= driftPercent insight /\ driftPercent insight <= 40)%Z)
    (buildInsights analysis).
Proof.
  assert (Hall : Forall (fun insight =>
            (0.2 <= Insight.pulse insight /\ Insight.pulse insight <= 0.95)
            /\ (-0.4 <= Insight.delta insight /\ Insight.delta insight <= 0.4))
            (buildInsights analysis)).
  { unfold buildInsights. case_bool_decide; [apply BASE_INSIGHTS_gauges|].
    apply Forall_take, Forall_app. split; [|apply BASE_INSIGHTS_gauges].
    apply Forall_lookup. intros i insight Hi.
    rewrite list_lookup_imap in Hi.
    destruct (clusters analysis !! i) as [cluster|]; [|discriminate].
    cbn in Hi. injection Hi as <-. cbn [clusterInsight Insight.pulse Insight.delta].
    split; apply clamp_bounds; lra. }
  eapply Forall_impl; [exact Hall|].
  intros insight [[Hp1 Hp2] [Hd1 Hd2]]. repeat split; try assumption.
  - apply (mathRound_bounds 20 95); unfold inject_Z; lra.
  - apply (mathRound_bounds 20 95); unfold inject_Z; lra.
  - apply (mathRound_bounds (-40) 40); unfold inject_Z; lra.
  - apply (mathRound_bounds (-40) 40); unfold inject_Z; lra.
Qed.

(** X2. For the analysis of any text the momentum variance lies in
    [0.2, 0.8]: its upper clamp at 0.9 is never reached. The coherence shown
    is between 20 and 80 percent and one turn of the rings takes between
    13.2 and 16.8 seconds. *)
Theorem momentumVariance_range `{CaseMapping} (content : jsstring) :
  let a := analyzeText content in
  (0.2 <= momentumVariance a /\ momentumVariance a <= 0.8)
  /\ (20 <= coherence a /\ coherence a <= 80)%Z
  /\ (13.2 <= spinDuration a /\ spinDuration a <= 16.8).
Proof.
  intros a.
  destruct (analyzeText_bounds content) as [[Hs1 Hs2] [He1 He2]]. fold a in Hs1, Hs2, He1, He2.
  assert (Habs : 0 <= Qabs (sentiment a) /\ Qabs (sentiment a) <= 1).
  { split; [apply Qabs_nonneg|]. apply Qabs_Qle_condition. split; lra. }
  assert (Hmv : 0.2 <= momentumVariance a /\ momentumVariance a <= 0.8).
  { unfold momentumVariance.
    destruct (clamp_cases (energy a * 0.45 + Qabs (sentiment a) * 0.35) 0.2 0.9)
      as [[_ Heq]|[(Hlo & Hhi & Heq)|[Hhi _]]]; try lra; rewrite Heq; nra. }
  split; [exact Hmv|]. split.
  - unfold coherence. apply (mathRound_bounds 20 80); unfold inject_Z; lra.
  - unfold spinDuration. lra.
Qed.

(** X3. For the analysis of any text the gauges stay on their scales: the
    opacity of the momentum disc in [0.25, 1], the energy bar between 5 and
    100 percent wide, the inset of the sentiment dial between 0 and 40
    percent and the sentiment index between -100 and 100. *)
Theorem gauges_in_range `{CaseMapping} (content : jsstring) :
  let a := analyzeText content in
  (0.25 <= momentumOpacity a /\ momentumOpacity a <= 1)
  /\ (5 <= energyBarWidth a /\ energyBarWidth a <= 100)%Z
  /\ (0 <= sentimentInset a /\ sentimentInset a <= 40)%Z
  /\ (-100 <= sentimentIndex a /\ sentimentIndex a <= 100)%Z.
Proof.
  intros a.
  destruct (analyzeText_bounds content) as [[Hs1 Hs2] [He1 He2]]. fold a in Hs1, Hs2, He1, He2.
  split; [|split; [|split]].
  - unfold momentumOpacity. apply clamp_bounds. lra.
  - unfold energyBarWidth.
    destruct (Q.max_spec (energy a) 0.05) as [[Hcmp Heq]|[Hcmp Heq]];
      apply (mathRound_bounds 5 100); unfold inject_Z; rewrite Heq; lra.
  - unfold sentimentInset.
    destruct (Qle_bool 0 (sentiment a)) eqn:Hsign.
    + apply Qle_bool_iff in Hsign.
      apply (mathRound_bounds 0 40); unfold inject_Z; lra.
    + assert (Hneg : sentiment a < 0).
      { apply Qnot_le_lt. intros Hle. apply Qle_bool_iff in Hle. congruence. }
      apply (mathRound_bounds 0 40); unfold inject_Z; lra.
  - unfold sentimentIndex. apply (mathRound_bounds (-100) 100); unfold inject_Z; lra.
Qed.

Lemma ofNat_le (a b : nat) : (a <= b)%nat -> ofNat a <= ofNat b.
Proof. intros Hle. unfold ofNat. rewrite <- Zle_Qle. lia. Qed.

Lemma ofNat_add (a b : nat) : ofNat (a + b) == ofNat a + ofNat b.
Proof. unfold ofNat. now rewrite Nat2Z.inj_add, inject_Z_plus. Qed.

Lemma ofNat_nonneg (a : nat) : 0 <= ofNat a.
Proof. apply (ofNat_le 0 a). lia. Qed.

Lemma hits_length (terms clean : list jsstring) :
  (hits terms clean <= length clean)%nat.
Proof. unfold hits. apply List.filter_length_le. Qed.

Lemma hits_disjoint (positive negative clean : list jsstring) :
  (forall t, t ∈ positive -> t ∉ negative) ->
  (hits positive clean + hits negative clean <= length clean)%nat.
Proof.
  intros Hdisj. unfold hits.
  induction clean as [|x clean IH]; [reflexivity|]. cbn [List.filter].
  destruct (decide (x ∈ positive)) as [Hp|Hp].
  - rewrite (bool_decide_eq_true_2 _ Hp).
    rewrite (bool_decide_eq_false_2 _ (Hdisj x Hp)). cbn [length]. lia.
  - rewrite (bool_decide_eq_false_2 _ Hp).
    destruct (bool_decide (x ∈ negative)); cbn [length]; lia.
Qed.

Lemma term_lists_disjoint (t : jsstring) :
  t ∈ POSITIVE_TERMS -> t ∉ NEGATIVE_TERMS.
Proof.
  revert t. apply Forall_forall. apply (bool_decide_unpack _).
  vm_compute. exact I.
Qed.

Lemma sentiment_quotient `{CaseMapping} (content : jsstring) :
  sentiment (analyzeText content)
  == (ofNat (hits POSITIVE_TERMS (normalize content))
      - ofNat (hits NEGATIVE_TERMS (normalize content)))
     / ofNat (Nat.max (length (normalize content)) 4).
Proof.
  destruct (decide (normalize content = [])) as [Hnil|Hne].
  - unfold analyzeText. rewrite analyzeWith_empty by exact Hnil.
    rewrite Hnil. vm_compute. reflexivity.
  - rewrite (sentiment_of_tokens content Hne).
    pose proof (hits_disjoint POSITIVE_TERMS NEGATIVE_TERMS (normalize content)
                  term_lists_disjoint) as Hsum.
    set (p := hits POSITIVE_TERMS (normalize content)) in *.
    set (n := hits NEGATIVE_TERMS (normalize content)) in *.
    set (m := Nat.max (length (normalize content)) 4).
    assert (Hm : 4 <= ofNat m) by (apply (ofNat_le 4 m); lia).
    assert (Hpn : ofNat p + ofNat n <= ofNat m).
    { rewrite <- ofNat_add. apply ofNat_le. lia. }
    pose proof (ofNat_nonneg p) as Hp. pose proof (ofNat_nonneg n) as Hn.
    assert (Hlo : -1 <= (ofNat p - ofNat n) / ofNat m)
      by (apply Qle_shift_div_l; lra).
    assert (Hhi : (ofNat p - ofNat n) / ofNat m <= 1)
      by (apply Qle_shift_div_r; lra).
    destruct (clamp_cases ((ofNat p - ofNat n) / ofNat m) (-1) 1)
      as [[Hc Heq]|[(_ & _ & Heq)|[Hc Heq]]]; try lra; rewrite Heq; lra.
Qed.

(** X4. No token is a hit of both term lists, so the hits together are at
    most the tokens and the clamp of the sentiment never cuts: the sentiment
    is the hit difference divided by [max(tokenCount, 4)] itself. *)
Theorem sentiment_unclamped `{CaseMapping} (content : jsstring) :
  let tokens := normalize content in
  (hits POSITIVE_TERMS tokens + hits NEGATIVE_TERMS tokens <= length tokens)%nat
  /\ sentiment (analyzeText content)
     == (ofNat (hits POSITIVE_TERMS tokens) - ofNat (hits NEGATIVE_TERMS tokens))
        / ofNat (Nat.max (length tokens) 4).
Proof.
  intros tokens. split.
  - apply hits_disjoint, term_lists_disjoint.
  - apply sentiment_quotient.
Qed.

(** X5. The energy is zero exactly for a text without tokens, and it is at
    its maximum 1 for every text of 45 tokens or more. *)
Theorem energy_zero_and_full `{CaseMapping} (content : jsstring) :
  let tokens := normalize content in
  (energy (analyzeText content) == 0 <-> tokens = [])
  /\ ((45 <= length tokens)%nat -> energy (analyzeText content) == 1).
Proof.
  intros tokens.
  destruct (decide (tokens = [])) as [Hnil|Hne].
  - split.
    + unfold analyzeText. rewrite analyzeWith_empty by exact Hnil.
      split; [auto|reflexivity].
    + rewrite Hnil. cbn. lia.
  - destruct (analyzeWith_scores POSITIVE_TERMS NEGATIVE_TERMS content Hne)
      as [_ Hen]. fold (analyzeText content) in Hen. fold tokens in Hen.
    pose proof (Qabs_nonneg (sentiment (analyzeText content))) as Habs.
    assert (Hlen : 1 <= ofNat (length tokens)).
    { apply (ofNat_le 1). destruct tokens; [congruence|cbn; lia]. }
    set (v := ofNat (length tokens) / 45
              + Qabs (sentiment (analyzeText content)) * 0.45) in *.
    assert (Hdiv : ofNat (length tokens) / 45 == ofNat (length tokens) * (1 # 45))
      by reflexivity.
    split.
    + split; [|contradiction]. intros Hzero. exfalso.
      rewrite Hen in Hzero.
      destruct (clamp_cases v 0 1) as [[Hc Heq]|[(Hc1 & Hc2 & Heq)|[Hc Heq]]];
        subst v; lra.
    + intros H45. assert (H45q : 45 <= ofNat (length tokens))
        by (apply (ofNat_le 45); exact H45).
      rewrite Hen.
      destruct (clamp_cases v 0 1) as [[Hc Heq]|[(Hc1 & Hc2 & Heq)|[Hc Heq]]];
        subst v; lra.
Qed.

Lemma energy_zero_and_full_witness :
  energy (@analyzeText asciiCase
            (js "alpha beta gamma delta epsilon alpha beta gamma delta epsilon alpha beta gamma delta epsilon alpha beta gamma delta epsilon alpha beta gamma delta epsilon alpha beta gamma delta epsilon alpha beta gamma delta epsilon alpha beta gamma delta epsilon alpha beta gamma delta epsilon"))
  == 1.
Proof.
  apply (proj2 (@energy_zero_and_full asciiCase _)).
  apply Nat.leb_le. vm_compute. reflexivity.
Defined.

(** ** Further properties: the frequency map and the clusters *)


Lemma frequencyOf_keys (clean : list jsstring) :
  map fst (frequencyOf clean) = firstSeen clean.
Proof.
  rewrite frequencyOf_firstSeen, map_map. cbn [fst]. apply map_id.
Qed.

Lemma frequencyOf_get (clean : list jsstring) (t : jsstring) :
  t ∈ clean -> mapGet t (frequencyOf clean) = Some (occurrences t clean).
Proof.
  intros Hin. apply mapGet_present.
  - rewrite frequencyOf_keys. apply NoDup_firstSeen.
  - rewrite frequencyOf_firstSeen. apply list_elem_of_In, in_map_iff.
    exists t. split; [reflexivity|].
    now apply list_elem_of_In, elem_of_firstSeen.
Qed.

Lemma sum_bump (t : jsstring) (m : FreqMap) :
  NoDup (map fst m) -> t ∈ map fst m ->
  sum_list (map snd (bump t m)) = S (sum_list (map snd m)).
Proof.
  induction m as [|[k v] m IH]; intros Hnd Hin; [now apply elem_of_nil in Hin|].
  cbn in Hnd. apply NoDup_cons in Hnd as [Hk Hnd].
  change (bump t ((k, v) :: m))
    with ((if decide (k = t) then (k, S v) else (k, v)) :: bump t m).
  destruct (decide (k = t)) as [->|Hne].
  - rewrite bump_absent by exact Hk. reflexivity.
  - cbn in Hin. apply elem_of_cons in Hin as [Heq|Hin]; [congruence|].
    cbn [map snd sum_list_with]. rewrite (IH Hnd Hin). cbn. lia.
Qed.

Lemma countToken_keys_NoDup (t : jsstring) (m : FreqMap) :
  NoDup (map fst m) -> NoDup (map fst (countToken m t)).
Proof.
  intros Hnd. destruct (decide (t ∈ map fst m)) as [Hin|Hnin].
  - rewrite countToken_present by assumption. now rewrite bump_keys.
  - rewrite countToken_absent by assumption. rewrite map_app.
    apply NoDup_app. split; [exact Hnd|]. split; [|apply NoDup_singleton].
    intros x Hx Hx'. cbn in Hx'. apply list_elem_of_singleton in Hx'. now subst.
Qed.

Lemma fold_countToken_sum (ts : list jsstring) :
  forall m : FreqMap,
    NoDup (map fst m) ->
    sum_list (map snd (fold_left countToken ts m))
    = (sum_list (map snd m) + length ts)%nat.
Proof.
  induction ts as [|t ts IH]; intros m Hnd; [cbn; lia|].
  cbn [fold_left length]. rewrite IH by now apply countToken_keys_NoDup.
  destruct (decide (t ∈ map fst m)) as [Hin|Hnin].
  - rewrite countToken_present, sum_bump by assumption. lia.
  - rewrite countToken_absent by assumption.
    rewrite map_app, sum_list_with_app. cbn. lia.
Qed.

(** X6. The frequency map built from the tokens has each distinct token once
    as a key; looking a token up gives the number of its occurrences, a
    string that is no token is absent, and the counts add up to the number
    of tokens. *)
Theorem frequencyOf_lookup (clean : list jsstring) (t : jsstring) :
  NoDup (map fst (frequencyOf clean))
  /\ mapGet t (frequencyOf clean)
     = (if bool_decide (t ∈ clean) then Some (occurrences t clean) else None)
  /\ sum_list (map snd (frequencyOf clean)) = length clean.
Proof.
  split; [|split].
  - rewrite frequencyOf_keys. apply NoDup_firstSeen.
  - case_bool_decide as Hin; [now apply frequencyOf_get|].
    apply mapGet_absent. rewrite frequencyOf_keys.
    now rewrite elem_of_firstSeen.
  - unfold frequencyOf. rewrite fold_countToken_sum by constructor. reflexivity.
Qed.

Lemma keywords_facts `{CaseMapping} (content : jsstring) :
  NoDup (keywords (analyzeText content))
  /\ forall k, k ∈ keywords (analyzeText content) -> k ∈ normalize content.
Proof.
  unfold analyzeText.
  destruct (decide (normalize content = [])) as [Hnil|Hne].
  - rewrite analyzeWith_empty by exact Hnil. cbn [keywords].
    split; [constructor|]. intros k Hk. now apply elem_of_nil in Hk.
  - rewrite analyzeWith_keywords by exact Hne.
    destruct (ranking_of_tokens (normalize content)) as (Hnd & Hmem & _).
    split.
    + eapply sublist_NoDup; [exact Hnd|apply sublist_take].
    + intros k Hk. apply Hmem. exact (subseteq_take _ _ k Hk).
Qed.

Lemma analyzeWith_clusters `{CaseMapping} (positive negative : list jsstring)
    (content : jsstring) :
  normalize content <> [] ->
  let clean := normalize content in
  let a := analyzeWith positive negative content in
  clusters a
  = map (fun keyword =>
           let score :=
             clamp (ofNat (default 1%nat (mapGet keyword (frequencyOf clean)))
                    / ofNat (Nat.max (length clean) 1) * 2
                    + energy a * 0.6) 0 1 in
           {| Cluster.label := capitalize keyword;
              Cluster.score := score;
              Cluster.summary := summaryOf keyword score |})
        (take 3 (keywords a)).
Proof.
  intros Hne clean a. subst clean a. unfold analyzeWith.
  rewrite bool_decide_eq_false_2; [reflexivity|].
  destruct (normalize content); [congruence|discriminate].
Qed.



(** ** Further properties: keys of the rendered lists *)

Ltac code_unit_cases :=
  repeat match goal with
         | |- context [N.leb ?a ?b] => destruct (N.leb_spec a b); try lia
         | |- context [N.eqb ?a ?b] => destruct (N.eqb_spec a b); try lia
         end;
  cbn; try reflexivity; try lia.

Lemma alnum_facts (c : codeUnit) :
  isLowerAlnum c = true ->
  (c < 128)%N /\ (asciiUpper c < 128)%N /\ asciiLower c = c
  /\ asciiLower (asciiUpper c) = c /\ isSpace c = false.
Proof.
  unfold isLowerAlnum. rewrite orb_true_iff, !andb_true_iff, !N.leb_le.
  intros Hrange.
  assert (Hc : (48 <= c /\ c <= 122)%N) by lia.
  split; [lia|]. split; [|split; [|split]].
  - unfold asciiUpper. code_unit_cases.
  - unfold asciiLower. code_unit_cases.
  - unfold asciiUpper. destruct (N.leb_spec 97 c); destruct (N.leb_spec c 122);
      cbn; unfold asciiLower; code_unit_cases.
  - unfold isSpace. code_unit_cases.
Qed.

Lemma normalize_alnum `{CaseMapping} (content token : jsstring) :
  token ∈ normalize content ->
  Forall (fun c => isLowerAlnum c = true) token /\ token <> [].
Proof.
  intros Hin. split.
  - unfold normalize in Hin.
    apply list_elem_of_In, filter_In in Hin as [Hin _].
    pose proof (splitGo_pieces (fun c => isLowerAlnum c = true)
                  (replaceNonAlnum (toLowerCase content)) false []
                  (Forall_nil_2 _) (replaceNonAlnum_chars _)) as Hall.
    rewrite Forall_forall in Hall. apply Hall. now apply list_elem_of_In.
  - apply normalize_keep, keepToken_length in Hin.
    intros ->. cbn in Hin. lia.
Qed.

(** Lower-casing the capitalized token gives the token back. *)
Lemma capitalize_token `{CaseMapping} (token : jsstring) :
  Forall (fun c => isLowerAlnum c = true) token ->
  toLowerCase (capitalize token) = token.
Proof.
  intros Halnum. unfold capitalize. destruct token as [|c rest].
  - cbn [take drop]. rewrite toUpperCase_ascii by constructor. cbn.
    rewrite toLowerCase_ascii by constructor. reflexivity.
  - apply Forall_cons in Halnum as [Hc Hrest].
    change (take 1 (c :: rest)) with [c].
    change (drop 1 (c :: rest)) with rest.
    destruct (alnum_facts c Hc) as (Hc128 & Hup128 & _ & Hround & _).
    rewrite toUpperCase_ascii by (repeat constructor; exact Hc128).
    cbn [map app]. rewrite toLowerCase_ascii.
    + cbn [map]. rewrite Hround. f_equal.
      induction Hrest as [|x rest Hx Hrest IH]; [reflexivity|].
      cbn [map]. rewrite IH. f_equal. now apply alnum_facts.
    + constructor; [exact Hup128|].
      eapply Forall_impl; [exact Hrest|]. intros x Hx. now apply alnum_facts.
Qed.

Lemma map_imap {A B C : Type} (g : B -> C) (f : A -> C) (l : list A) :
  forall h : nat -> A -> B,
    (forall i x, g (h i x) = f x) -> map g (imap h l) = map f l.
Proof.
  induction l as [|x l IH]; intros h Hh; [reflexivity|].
  cbn. rewrite Hh. f_equal. apply IH. intros i y. apply Hh.
Qed.

Lemma NoDup_map_prefix (prefix : jsstring) (l : list jsstring) :
  NoDup l -> NoDup (map (fun k => prefix ++ k) l).
Proof.
  intros Hnd.
  assert (Hinj : Inj (=) (=) (fun k : jsstring => prefix ++ k))
    by (intros x y Heq; now apply app_inv_head in Heq).
  exact (NoDup_fmap_2 _ l Hnd).
Qed.

Lemma insight_ids `{CaseMapping} (content : jsstring) :
  map Insight.id (buildInsights (analyzeText content))
  = take 5 (map (fun k => js "cluster-" ++ k)
              (take 3 (keywords (analyzeText content)))
            ++ map Insight.id BASE_INSIGHTS).
Proof.
  set (a := analyzeText content).
  destruct (decide (normalize content = [])) as [Hnil|Hne].
  - subst a. unfold analyzeText. rewrite analyzeWith_empty by exact Hnil.
    reflexivity.
  - pose proof (analyzeWith_keywords POSITIVE_TERMS NEGATIVE_TERMS content Hne)
      as Hkw. fold (analyzeText content) in Hkw. fold a in Hkw.
    assert (Hkne : keywords a <> []).
    { rewrite Hkw. destruct (ranking_of_tokens (normalize content))
        as (_ & Hmem & _).
      destruct (normalize content) as [|t ts] eqn:Htok; [congruence|].
      assert (Ht : t ∈ map fst (sortBy byCountDesc (frequencyOf (t :: ts))))
        by (apply Hmem; left).
      destruct (map fst (sortBy byCountDesc (frequencyOf (t :: ts))));
        [now apply elem_of_nil in Ht|discriminate]. }
    unfold buildInsights. rewrite bool_decide_eq_false_2
      by (destruct (keywords a); [congruence|discriminate]).
    rewrite <- firstn_map, map_app. f_equal. f_equal.
    pose proof (analyzeWith_clusters POSITIVE_TERMS NEGATIVE_TERMS content Hne)
      as Hcl. cbv zeta in Hcl. fold (analyzeText content) in Hcl.
    fold a in Hcl. rewrite Hcl.
    rewrite (map_imap Insight.id
               (fun cluster => js "cluster-" ++ toLowerCase (Cluster.label cluster)))
      by reflexivity.
    rewrite map_map. cbn [Cluster.label]. apply map_ext_elem.
    intros k Hk. f_equal. apply capitalize_token.
    apply (normalize_alnum content).
    apply (proj2 (keywords_facts content)).
    exact (subseteq_take _ _ k Hk).
Qed.

(** X8. The insights built from the analysis of any text carry pairwise
    different ids, so they are distinct keys of the rendered cards: the id of
    the insight of a cluster is "cluster-" followed by the keyword itself,
    and these ids come before the baseline ids, cut after five. *)
Theorem insight_ids_distinct `{CaseMapping} (content : jsstring) :
  let a := analyzeText content in
  map Insight.id (buildInsights a)
  = take 5 (map (fun k => js "cluster-" ++ k) (take 3 (keywords a))
            ++ map Insight.id BASE_INSIGHTS)
  /\ NoDup (map Insight.id (buildInsights a)).
Proof.
  intros a. pose proof (insight_ids content) as Hids. fold a in Hids.
  split; [exact Hids|]. rewrite Hids.
  eapply sublist_NoDup; [|apply sublist_take].
  apply NoDup_app. split; [|split].
  - apply NoDup_map_prefix.
    eapply sublist_NoDup; [|apply sublist_take].
    apply (proj1 (keywords_facts content)).
  - intros x Hx Hbase.
    apply list_elem_of_In, in_map_iff in Hx as [k [<- _]].
    cbn in Hbase. rewrite !elem_of_cons in Hbase.
    destruct Hbase as [Hb|[Hb|[Hb|Hb]]];
      [discriminate Hb..|now apply elem_of_nil in Hb].
  - apply (bool_decide_unpack _). vm_compute. exact I.
Qed.

(** X9. The chips of the trending topics carry pairwise different texts, so
    they are distinct keys, and there are between one and six of them: the
    keywords of the analysis, or the four placeholders when there are
    none. *)
Theorem trendingTopics_distinct `{CaseMapping} (content : jsstring) :
  let topics := trendingTopics (analyzeText content) in
  NoDup topics /\ (1 <= length topics)%nat /\ (length topics <= 6)%nat.
Proof.
  intros topics. subst topics. unfold trendingTopics.
  case_bool_decide as Hlen.
  - split; [|cbn; lia]. apply (bool_decide_unpack _). vm_compute. exact I.
  - split; [apply (proj1 (keywords_facts content))|]. split; [lia|].
    unfold analyzeText.
    destruct (decide (normalize content = [])) as [Hnil|Hne].
    + rewrite analyzeWith_empty by exact Hnil. cbn. lia.
    + rewrite analyzeWith_keywords by exact Hne. rewrite length_take. lia.
Qed.

(** ** Further properties: tokens of joined texts *)

Lemma splitGo_gap (s : jsstring) :
  List.filter keepToken (splitGo true [] s)
  = List.filter keepToken (splitGo false [] s).
Proof.
  destruct s as [|c rest]; [reflexivity|]. cbn [splitGo].
  destruct (isSpace c); reflexivity.
Qed.

Lemma splitGo_app_space (sp : codeUnit) (s1 s2 : jsstring) :
  isSpace sp = true ->
  forall (inGap : bool) (cur : jsstring),
    (inGap = true -> cur = []) ->
    List.filter keepToken (splitGo inGap cur (s1 ++ sp :: s2))
    = List.filter keepToken (splitGo inGap cur s1)
      ++ List.filter keepToken (splitGo false [] s2).
Proof.
  intros Hsp. induction s1 as [|c rest IH]; intros inGap cur Hcur.
  - cbn [app splitGo]. rewrite Hsp. destruct inGap.
    + rewrite (Hcur eq_refl). cbn [List.filter]. apply splitGo_gap.
    + change (cur :: splitGo true [] s2) with ([cur] ++ splitGo true [] s2).
      now rewrite List.filter_app, splitGo_gap.
  - cbn [app splitGo]. destruct (isSpace c).
    + destruct inGap; [now apply IH|].
      cbn [List.filter]. destruct (keepToken cur); cbn [app];
        now rewrite IH.
    + apply IH. discriminate.
Qed.

Lemma replaceNonAlnum_app (a b : jsstring) :
  replaceNonAlnum (a ++ b) = replaceNonAlnum a ++ replaceNonAlnum b.
Proof. unfold replaceNonAlnum. apply map_app. Qed.

Lemma isAscii_app (a b : jsstring) : isAscii a -> isAscii b -> isAscii (a ++ b).
Proof. unfold isAscii. intros Ha Hb. apply Forall_app. now split. Qed.

Lemma isAscii_space : isAscii (js " ").
Proof. repeat constructor. Qed.

(** Tokens of two ASCII texts joined by a space. *)
Lemma normalize_app_space `{CaseMapping} (a b : jsstring) :
  isAscii a -> isAscii b ->
  normalize (a ++ js " " ++ b) = normalize a ++ normalize b.
Proof.
  intros Ha Hb. unfold normalize.
  rewrite (toLowerCase_ascii a Ha), (toLowerCase_ascii b Hb).
  rewrite toLowerCase_ascii
    by (apply isAscii_app; [assumption|];
        apply isAscii_app; [apply isAscii_space|assumption]).
  rewrite !map_app, !replaceNonAlnum_app. unfold splitSpaces.
  change (replaceNonAlnum (map asciiLower (js " "))) with [32%N].
  cbn [app]. apply splitGo_app_space; [reflexivity|discriminate].
Qed.

Lemma isAscii_join (texts : list jsstring) :
  Forall isAscii texts -> isAscii (join (js " ") texts).
Proof.
  induction 1 as [|t ts Ht Hts IH]; [constructor|].
  destruct ts as [|t' ts]; [exact Ht|].
  change (join (js " ") (t :: t' :: ts))
    with (t ++ js " " ++ join (js " ") (t' :: ts)).
  apply isAscii_app; [exact Ht|]. apply isAscii_app; [apply isAscii_space|exact IH].
Qed.

Lemma normalize_join `{CaseMapping} (texts : list jsstring) :
  Forall isAscii texts ->
  normalize (join (js " ") texts) = concat (map normalize texts).
Proof.
  induction 1 as [|t ts Ht Hts IH]; [apply normalize_nil|].
  destruct ts as [|t' ts].
  - cbn [join map concat]. now rewrite app_nil_r.
  - change (join (js " ") (t :: t' :: ts))
      with (t ++ js " " ++ join (js " ") (t' :: ts)).
    rewrite normalize_app_space; [|exact Ht|now apply isAscii_join].
    rewrite IH. reflexivity.
Qed.

Lemma trimStart_Forall (P : codeUnit -> Prop) (s : jsstring) :
  Forall P s -> Forall P (trimStart s).
Proof.
  induction 1 as [|c s Hc Hs IH]; [constructor|]. cbn [trimStart].
  destruct (isSpace c); [exact IH|now constructor].
Qed.

Lemma trim_Forall (P : codeUnit -> Prop) (s : jsstring) :
  Forall P s -> Forall P (trim s).
Proof.
  intros Hs. unfold trim.
  apply Forall_reverse, trimStart_Forall, Forall_reverse, trimStart_Forall, Hs.
Qed.

Lemma join_cons_cons (sep a b : jsstring) (rest : list jsstring) :
  join sep (a :: b :: rest) = a ++ sep ++ join sep (b :: rest).
Proof. reflexivity. Qed.

Lemma join_snoc_head (sep a b : jsstring) (rest : list jsstring) :
  join sep ((a ++ sep ++ b) :: rest) = join sep (a :: b :: rest).
Proof.
  rewrite join_cons_cons. destruct rest as [|r rest]; [reflexivity|].
  rewrite !join_cons_cons. now rewrite <- !app_assoc.
Qed.

Lemma submitAll_corpus `{CaseMapping} (fragments : list (Ticks * jsstring)) :
  forall st : Session,
    compiledText (submitAll st fragments)
    = join (js " ")
        ((if bool_decide (compiledText st = []) then [] else [compiledText st])
         ++ map fst (accepted fragments)).
Proof.
  induction fragments as [|[clock content] rest IH]; intros st.
  - cbn [submitAll fold_left accepted omap map]. rewrite app_nil_r.
    case_bool_decide as Hc; [now rewrite Hc|reflexivity].
  - rewrite submitAll_cons, accepted_cons, IH.
    destruct (decide (trim content = [])) as [Hblank|Hne].
    + rewrite processChunk_blank_frame by exact Hblank.
      now rewrite (bool_decide_eq_true_2 _ Hblank).
    + rewrite (bool_decide_eq_false_2 _ Hne).
      rewrite processChunk_compiledText by exact Hne.
      cbn [map fst]. destruct (decide (compiledText st = [])) as [Hprev|Hprev].
      * rewrite !(bool_decide_eq_true_2 _ Hprev).
        rewrite (bool_decide_eq_false_2 _ Hne). reflexivity.
      * rewrite !(bool_decide_eq_false_2 _ Hprev).
        rewrite bool_decide_eq_false_2.
        -- cbn [app]. apply join_snoc_head.
        -- intros Hnil. apply app_eq_nil in Hnil as [Hnil _]. contradiction.
Qed.

(** X10. The corpus of a session is the accepted fragments, trimmed, in the
    order of their acceptance and separated by single spaces: it starts and
    ends with a fragment and nothing of it is ever dropped. *)
Theorem corpus_is_joined_fragments `{CaseMapping} (mounted : N)
    (fragments : list (Ticks * jsstring)) :
  compiledText (submitAll (initialSession mounted) fragments)
  = join (js " ") (map fst (accepted fragments)).
Proof. rewrite submitAll_corpus. reflexivity. Qed.

(** X11. When the fragments are ASCII text, the tokens of the corpus are the
    tokens of the accepted fragments one after the other: a fragment adds
    its own tokens at the end and changes none of the earlier ones. *)
Theorem corpus_tokens_accumulate `{CaseMapping} (mounted : N)
    (fragments : list (Ticks * jsstring)) :
  Forall (fun tf => isAscii (snd tf)) fragments ->
  normalize (compiledText (submitAll (initialSession mounted) fragments))
  = concat (map normalize (map fst (accepted fragments))).
Proof.
  intros Hascii. rewrite submitAll_corpus.
  cbn [initialSession compiledText]. rewrite bool_decide_eq_true_2 by reflexivity.
  cbn [app]. apply normalize_join.
  induction Hascii as [|[clock content] rest Hc Hrest IH]; [constructor|].
  rewrite accepted_cons. case_bool_decide; [exact IH|].
  cbn [map fst]. constructor; [|exact IH]. now apply trim_Forall.
Qed.

Lemma corpus_tokens_accumulate_witness :
  @normalize asciiCase
    (compiledText
       (@submitAll asciiCase (initialSession 0)
          [(mkTicks 1 1 1, js " Great win! "); (mkTicks 2 2 2, js "   ");
           (mkTicks 3 3 3, js "some risk")]))
  = concat (map (@normalize asciiCase)
              (map fst (accepted [(mkTicks 1 1 1, js " Great win! ");
                                  (mkTicks 2 2 2, js "   ");
                                  (mkTicks 3 3 3, js "some risk")]))).
Proof.
  apply (@corpus_tokens_accumulate asciiCase).
  apply (bool_decide_unpack _). vm_compute. exact I.
Defined.

Lemma splitGo_word (t : jsstring) :
  Forall (fun c => isSpace c = false) t ->
  forall cur s, splitGo false cur (t ++ s) = splitGo false (cur ++ t) s.
Proof.
  induction 1 as [|c t Hc Ht IH]; intros cur s.
  - now rewrite app_nil_r.
  - cbn [app splitGo]. rewrite Hc, IH, <- app_assoc. reflexivity.
Qed.

Lemma splitGo_join (tokens : list jsstring) :
  forall (t : jsstring) (inGap : bool),
    Forall (fun x => x <> [] /\ Forall (fun c => isSpace c = false) x)
      (t :: tokens) ->
    splitGo inGap [] (join (js " ") (t :: tokens)) = t :: tokens.
Proof.
  induction tokens as [|t' tokens IH]; intros t inGap Hall;
    apply Forall_cons in Hall as [[Hne Ht] Hrest];
    (destruct t as [|c r]; [now contradiction Hne|]);
    apply Forall_cons in Ht as [Hc Hr].
  - cbn [join splitGo]. rewrite Hc.
    rewrite <- (app_nil_r r) at 1. rewrite splitGo_word by exact Hr.
    reflexivity.
  - rewrite join_cons_cons. cbn [app splitGo]. rewrite Hc.
    rewrite splitGo_word by exact Hr.
    change (js " " ++ join (js " ") (t' :: tokens))
      with (32%N :: join (js " ") (t' :: tokens)).
    cbn [splitGo]. change (isSpace 32%N) with true. cbn iota.
    f_equal. now apply IH.
Qed.

Lemma filter_all {A : Type} (f : A -> bool) (l : list A) :
  Forall (fun x => f x = true) l -> List.filter f l = l.
Proof.
  induction 1 as [|x l Hx Hl IH]; [reflexivity|].
  cbn [List.filter]. now rewrite Hx, IH.
Qed.

Lemma join_chars (P : codeUnit -> Prop) (sep : jsstring) (pieces : list jsstring) :
  Forall P sep -> Forall (Forall P) pieces -> Forall P (join sep pieces).
Proof.
  intros Hsep. induction 1 as [|t ts Ht Hts IH]; [constructor|].
  destruct ts as [|t' ts]; [exact Ht|].
  rewrite join_cons_cons. apply Forall_app. split; [exact Ht|].
  apply Forall_app. now split.
Qed.

Lemma map_fixed {A : Type} (f : A -> A) (l : list A) :
  Forall (fun x => f x = x) l -> map f l = l.
Proof.
  induction 1 as [|x l Hx Hl IH]; [reflexivity|].
  cbn [map]. now rewrite Hx, IH.
Qed.

Lemma analyzeWith_tokens_ext `{CaseMapping} (positive negative : list jsstring)
    (c1 c2 : jsstring) :
  normalize c1 = normalize c2 ->
  analyzeWith positive negative c1 = analyzeWith positive negative c2.
Proof. intros Heq. unfold analyzeWith. cbv zeta. now rewrite Heq. Qed.

(** X12. The tokens of a text, written out with single spaces, are a text
    with the same tokens; so the analysis of a text is the analysis of its
    tokens, and punctuation, letter case, spacing and stop words of a text
    have no influence on it. *)
Theorem normalize_roundtrip `{CaseMapping} (content : jsstring) :
  normalize (join (js " ") (normalize content)) = normalize content
  /\ analyzeText (join (js " ") (normalize content)) = analyzeText content.
Proof.
  assert (Hround : normalize (join (js " ") (normalize content))
                   = normalize content).
  { assert (Htok : Forall (fun t => (Forall (fun c => isLowerAlnum c = true) t
                                     /\ t <> [])
                                    /\ keepToken t = true)
                     (normalize content)).
    { apply Forall_forall. intros t Ht. split.
      - now apply (normalize_alnum content).
      - now apply (normalize_keep content). }
    destruct (normalize content) as [|t tokens] eqn:Htokens;
      [apply normalize_nil|].
    assert (Hchars : Forall (fun c => isLowerAlnum c = true \/ c = 32%N)
                       (join (js " ") (t :: tokens))).
    { apply join_chars; [repeat constructor; now right|].
      eapply Forall_impl; [exact Htok|]. intros x [[Hx _] _].
      eapply Forall_impl; [exact Hx|]. intros c Hc. now left. }
    unfold normalize. rewrite toLowerCase_ascii.
    - rewrite (map_fixed asciiLower).
      2:{ eapply Forall_impl; [exact Hchars|]. intros c [Hc| ->];
            [now apply alnum_facts|reflexivity]. }
      unfold replaceNonAlnum. rewrite map_fixed.
      2:{ eapply Forall_impl; [exact Hchars|]. intros c [Hc| ->];
            [now rewrite Hc|reflexivity]. }
      unfold splitSpaces. rewrite splitGo_join.
      + apply filter_all. eapply Forall_impl; [exact Htok|]. now intros x [_ Hx].
      + eapply Forall_impl; [exact Htok|]. intros x [[Hx Hne] _].
        split; [exact Hne|].
        eapply Forall_impl; [exact Hx|]. intros c Hc. now apply alnum_facts.
    - eapply Forall_impl; [exact Hchars|]. intros c [Hc| ->];
        [now apply alnum_facts|reflexivity]. }
  split; [exact Hround|].
  unfold analyzeText. now apply analyzeWith_tokens_ext.
Qed.

(** ** Further properties: the session *)

Lemma trimStart_startsClean (s : jsstring) : startsClean (trimStart s).
Proof.
  induction s as [|c s IH]; [exact I|]. cbn [trimStart].
  destruct (isSpace c) eqn:Hc; [exact IH|exact Hc].
Qed.

Lemma trimStart_id (s : jsstring) : startsClean s -> trimStart s = s.
Proof. destruct s as [|c s]; [reflexivity|]. cbn. now intros ->. Qed.

Lemma trimStart_suffix (s : jsstring) : trimStart s `suffix_of` s.
Proof.
  induction s as [|c s IH]; [reflexivity|]. cbn [trimStart].
  destruct (isSpace c); [now apply suffix_cons_r|reflexivity].
Qed.

Lemma startsClean_prefix (a b : jsstring) :
  startsClean (a ++ b) -> a <> [] -> startsClean a.
Proof. destruct a as [|c a]; [congruence|]. now cbn. Qed.

Lemma startsClean_app (a b : jsstring) :
  startsClean a -> a <> [] -> startsClean (a ++ b).
Proof. destruct a as [|c a]; [congruence|]. now cbn. Qed.

Lemma trim_clean (s : jsstring) :
  startsClean (trim s) /\ startsClean (reverse (trim s)).
Proof.
  unfold trim. rewrite reverse_involutive. split; [|apply trimStart_startsClean].
  destruct (trimStart_suffix (reverse (trimStart s))) as [p Hp].
  apply (f_equal reverse) in Hp. rewrite reverse_involutive, reverse_app in Hp.
  destruct (decide (reverse (trimStart (reverse (trimStart s))) = []))
    as [Hnil|Hne]; [now rewrite Hnil|].
  eapply startsClean_prefix; [|exact Hne].
  rewrite <- Hp. apply trimStart_startsClean.
Qed.

Lemma trim_id (s : jsstring) :
  startsClean s -> startsClean (reverse s) -> trim s = s.
Proof.
  intros Hs Hr. unfold trim.
  rewrite (trimStart_id s Hs), (trimStart_id _ Hr). apply reverse_involutive.
Qed.

Lemma trim_idempotent (s : jsstring) : trim (trim s) = trim s.
Proof. destruct (trim_clean s). now apply trim_id. Qed.

Lemma trim_id_clean (s : jsstring) :
  trim s = s -> startsClean s /\ startsClean (reverse s).
Proof. intros <-. apply trim_clean. Qed.

Lemma trim_joined (a b : jsstring) :
  trim a = a -> a <> [] -> trim b = b -> b <> [] ->
  trim (a ++ js " " ++ b) = a ++ js " " ++ b.
Proof.
  intros Ha Hane Hb Hbne.
  apply trim_id_clean in Ha as [Ha _], Hb as [_ Hb].
  apply trim_id.
  - now apply startsClean_app.
  - rewrite !reverse_app. rewrite <- app_assoc. apply startsClean_app; [exact Hb|].
    intros Hnil. apply (f_equal reverse) in Hnil.
    rewrite reverse_involutive in Hnil. contradiction.
Qed.

Lemma sliceLast6_snoc {A : Type} (l : list A) (x : A) :
  exists kept, sliceLast6 (l ++ [x]) = kept ++ [x] /\ kept `suffix_of` l.
Proof.
  unfold sliceLast6. exists (drop (length (l ++ [x]) - 6) l). split.
  - rewrite drop_app_le; [reflexivity|]. rewrite length_app. cbn. lia.
  - apply suffix_drop.
Qed.

Lemma processChunk_invariant `{CaseMapping} (clock : Ticks) (st : Session)
    (content : jsstring) :
  trailInvariant st -> trailInvariant (processChunk clock st content).
Proof.
  intros (Hlen & Hiff & Htexts & Hlast & Hcorpus).
  destruct (decide (trim content = [])) as [Hblank|Hne].
  { rewrite processChunk_blank_frame by exact Hblank. repeat split; tauto. }
  unfold processChunk. rewrite (bool_decide_eq_false_2 _ Hne).
  set (segment := {| Segment.id := _; Segment.text := trim content;
                     Segment.timestamp := stampNow clock |}).
  destruct (sliceLast6_snoc (segments st) segment) as (kept & Hkept & Hsuffix).
  unfold trailInvariant. cbn [segments compiledText].
  split; [apply sliceLast6_length|]. rewrite Hkept.
  split; [|split; [|split]].
  - split.
    + intros Hnil. now apply app_eq_nil in Hnil as [_ Hnil].
    + case_bool_decide; [contradiction|].
      intros Hnil. now apply app_eq_nil in Hnil as [Hnil _].
  - apply Forall_app. split.
    + destruct Hsuffix as [dropped Hdropped]. rewrite Hdropped in Htexts.
      now apply Forall_app in Htexts as [_ ?].
    + constructor; [|constructor]. cbn [Segment.text segment].
      split; [exact Hne|apply trim_idempotent].
  - intros seg. rewrite last_snoc. intros [= <-]. cbn [Segment.text segment].
    case_bool_decide; [reflexivity|].
    apply suffix_app_r, suffix_app_r. reflexivity.
  - case_bool_decide as Hprev; [apply trim_idempotent|].
    apply trim_joined; [exact Hcorpus|exact Hprev|apply trim_idempotent|exact Hne].
Qed.

(** X13. Right after a fragment is accepted, the "Mic Stream" panel shows
    that fragment, trimmed: the live transcript has been cleared and the
    newest segment of the trail is the fragment. *)
Theorem micStream_after_accept `{CaseMapping} (clock : Ticks) (st : Session)
    (content : jsstring) :
  trim content <> [] ->
  micStream (processChunk clock st content) = trim content.
Proof.
  intros Hne. unfold micStream, processChunk.
  rewrite (bool_decide_eq_false_2 _ Hne). cbn [transcript segments].
  rewrite bool_decide_eq_true_2 by reflexivity.
  set (segment := {| Segment.id := _; Segment.text := trim content;
                     Segment.timestamp := stampNow clock |}).
  destruct (sliceLast6_snoc (segments st) segment) as (kept & Hkept & _).
  rewrite Hkept. rewrite bool_decide_eq_false_2
    by (rewrite length_app; cbn; lia).
  now rewrite last_snoc.
Qed.

Lemma micStream_after_accept_witness :
  micStream (@processChunk asciiCase (mkTicks 5 5 5) (initialSession 0)
               (js "  plot the orbit "))
  = js "plot the orbit".
Proof.
  apply (@micStream_after_accept asciiCase). vm_compute. discriminate.
Defined.

(** X14. Pressing the submit button a second time does nothing: after a
    manual submission the session is a fixed point of the submission,
    because the input was either blank and left alone or accepted and
    cleared. *)
Theorem handleManualSubmit_idempotent `{CaseMapping} (c1 c2 : Ticks)
    (st : Session) :
  handleManualSubmit c2 (handleManualSubmit c1 st) = handleManualSubmit c1 st.
Proof.
  destruct (decide (trim (manualInput st) = [])) as [Hblank|Hne].
  - rewrite (handleManualSubmit_blank c1 st Hblank).
    now apply handleManualSubmit_blank.
  - apply handleManualSubmit_blank. unfold handleManualSubmit.
    rewrite (bool_decide_eq_false_2 _ Hne). reflexivity.
Qed.

Lemma resultLoop_decomposed `{CaseMapping} (clockAt : nat -> Ticks)
    (pending : list (option Recognition.Result)) :
  forall (i : nat) (st : Session) (live : jsstring),
    resultLoop clockAt i pending st live
    = (submitAll st (finalFragments clockAt i pending),
       live ++ interimText pending).
Proof.
  induction pending as [|[result|] rest IH]; intros i st live.
  - cbn. now rewrite app_nil_r.
  - cbn [resultLoop finalFragments interimText].
    destruct (decide (textFragmentOf result = [])) as [Hnil|Hne].
    + rewrite (bool_decide_eq_true_2 _ Hnil), IH, Hnil.
      rewrite andb_false_r. now destruct (Recognition.isFinal result).
    + rewrite (bool_decide_eq_false_2 _ Hne), andb_true_r.
      destruct (Recognition.isFinal result).
      * rewrite IH. now rewrite submitAll_cons.
      * rewrite IH. now rewrite <- app_assoc.
  - cbn [resultLoop finalFragments interimText]. apply IH.
Qed.

Lemma onresult_decomposed_eq `{CaseMapping} (clockAt : nat -> Ticks)
    (event : Recognition.Event) (st : Session) :
  onresult clockAt event st
  = showLive
      (interimText
         (drop (Recognition.resultIndex event) (Recognition.results event)))
      (submitAll st
         (finalFragments clockAt (Recognition.resultIndex event)
            (drop (Recognition.resultIndex event) (Recognition.results event)))).
Proof. unfold onresult. rewrite resultLoop_decomposed. reflexivity. Qed.

(** X15. An event of the recognizer is handled as two independent parts: its
    final results that carry text are submitted as fragments, one after the
    other in the order of their indices, and the texts of its interim
    results, concatenated, become the live transcript. Results in front of
    [resultIndex] play no part. *)
Theorem onresult_decomposed `{CaseMapping} (clockAt : nat -> Ticks)
    (event : Recognition.Event) (st : Session) :
  let pending :=
    drop (Recognition.resultIndex event) (Recognition.results event) in
  onresult clockAt event st
  = showLive (interimText pending)
      (submitAll st
         (finalFragments clockAt (Recognition.resultIndex event) pending)).
Proof.
  intros pending. unfold onresult. fold pending.
  rewrite resultLoop_decomposed. reflexivity.
Qed.

Lemma finalFragments_interim (clockAt : nat -> Ticks)
    (pending : list (option Recognition.Result)) :
  Forall (fun r => match r with
                   | Some result => Recognition.isFinal result = false
                   | None => True
                   end) pending ->
  forall i, finalFragments clockAt i pending = [].
Proof.
  induction 1 as [|[result|] rest Hr Hrest IH]; intros i; [reflexivity| |].
  - cbn [finalFragments]. rewrite Hr. cbn. apply IH.
  - cbn [finalFragments]. apply IH.
Qed.

(** X16. An event whose results from [resultIndex] on are all interim changes
    nothing but the live transcript: the trail, the corpus, the reply and
    the time of the last update stay as they are. *)
Theorem onresult_interim_only `{CaseMapping} (clockAt : nat -> Ticks)
    (event : Recognition.Event) (st : Session) :
  let pending :=
    drop (Recognition.resultIndex event) (Recognition.results event) in
  Forall (fun r => match r with
                   | Some result => Recognition.isFinal result = false
                   | None => True
                   end) pending ->
  let st' := onresult clockAt event st in
  segments st' = segments st
  /\ compiledText st' = compiledText st
  /\ agentReply st' = agentReply st
  /\ lastUpdate st' = lastUpdate st
  /\ transcript st' = interimText pending
  /\ interimRef st' = interimText pending.
Proof.
  intros pending Hinterim st'. subst st'. unfold onresult. fold pending.
  rewrite resultLoop_decomposed.
  rewrite (finalFragments_interim clockAt pending Hinterim).
  cbn. repeat split; reflexivity.
Qed.

Lemma onresult_interim_only_witness :
  let event :=
    Recognition.mkEvent 1
      [Some (Recognition.mkResult true
               [Some (Recognition.mkAlternative (Some (js "old final")))]);
       Some (Recognition.mkResult false
               [Some (Recognition.mkAlternative (Some (js "plot the")))]);
       None;
       Some (Recognition.mkResult false
               [Some (Recognition.mkAlternative (Some (js " orbit")))])] in
  let st' := @onresult asciiCase (fun _ => mkTicks 9 9 9) event (initialSession 0) in
  segments st' = [] /\ transcript st' = js "plot the orbit".
Proof.
  intros event st'.
  destruct (@onresult_interim_only asciiCase (fun _ => mkTicks 9 9 9) event
              (initialSession 0)) as (Hseg & _ & _ & _ & Htr & _).
  - cbn. repeat constructor.
  - split; [exact Hseg|exact Htr].
Defined.

Lemma trailInvariant_ext (st st' : Session) :
  segments st' = segments st -> compiledText st' = compiledText st ->
  trailInvariant st -> trailInvariant st'.
Proof. unfold trailInvariant. now intros -> ->. Qed.

Lemma submitAll_invariant `{CaseMapping} (fragments : list (Ticks * jsstring)) :
  forall st, trailInvariant st -> trailInvariant (submitAll st fragments).
Proof.
  induction fragments as [|[clock content] rest IH]; intros st Hinv;
    [exact Hinv|].
  rewrite submitAll_cons. now apply IH, processChunk_invariant.
Qed.

Lemma handle_invariant `{CaseMapping} (st : Session) (e : UiEvent) :
  trailInvariant st -> trailInvariant (handle st e).
Proof.
  intros Hinv. destruct e as [clockAt event| |start|recognition|value|clock];
    cbn [handle].
  - rewrite onresult_decomposed_eq.
    eapply trailInvariant_ext; [reflexivity|reflexivity|].
    now apply submitAll_invariant.
  - exact Hinv.
  - destruct start as [[|]|]; exact Hinv.
  - destruct recognition; exact Hinv.
  - exact Hinv.
  - unfold handleManualSubmit. case_bool_decide; [exact Hinv|].
    eapply trailInvariant_ext; [reflexivity|reflexivity|].
    now apply processChunk_invariant.
Qed.

(** X17. Whatever happens to a mounted page, in whatever order (recognition
    events, listening started or stopped, typing, manual submissions), its
    session keeps the trail invariant: at most six segments, each with a
    non-empty trimmed text; a trail that is empty exactly when the corpus
    is; a trimmed corpus that ends with the text of the newest segment. *)
Theorem reachable_sessions_invariant `{CaseMapping} (mounted : N)
    (events : list UiEvent) :
  trailInvariant (runEvents (initialSession mounted) events).
Proof.
  assert (Hinit : trailInvariant (initialSession mounted)).
  { unfold trailInvariant. cbn. repeat split; try lia; try constructor;
      try reflexivity. intros segment Hlast. discriminate Hlast. }
  unfold runEvents. revert Hinit. generalize (initialSession mounted).
  induction events as [|e events IH]; intros st Hinv; [exact Hinv|].
  cbn [fold_left]. now apply IH, handle_invariant.
Qed.

(** ** Further properties: the reply *)

Lemma Qgtb_true (x y : Q) : Qgtb x y = true <-> y < x.
Proof.
  unfold Qgtb. rewrite negb_true_iff. split.
  - intros Hle. apply Qnot_le_lt. intros Hxy.
    apply Qle_bool_iff in Hxy. congruence.
  - intros Hlt. destruct (Qle_bool x y) eqn:Hle; [|reflexivity].
    apply Qle_bool_iff in Hle. lra.
Qed.

Lemma Qgtb_false (x y : Q) : Qgtb x y = false <-> x <= y.
Proof.
  unfold Qgtb. rewrite negb_false_iff. apply Qle_bool_iff.
Qed.

Lemma Qltb_true (x y : Q) : Qltb x y = true <-> x < y.
Proof. unfold Qltb. apply (Qgtb_true y x). Qed.

Lemma Qltb_false (x y : Q) : Qltb x y = false <-> y <= x.
Proof. unfold Qltb. apply (Qgtb_false y x). Qed.

(** X18. The reply to a fragment that is not blank is built on the analysis,
    and its tone word never contradicts its trend clause: "Uplifted" comes
    only with the upward trend and "Cautious" only with the cooling one,
    while "Neutral" goes with any of the three, according to the sentiment.
    The headline is never empty. *)
Theorem reply_tone_matches_trend `{CaseMapping} (latestChunk : jsstring)
    (analysis : Analysis) :
  trim latestChunk <> [] ->
  exists tone trend headline closing : jsstring,
    generateAgentReply latestChunk analysis
    = tone ++ js " Grok vector locked. " ++ headline ++ js " indicates "
      ++ trend ++ js ". " ++ closing
    /\ headline <> []
    /\ ((0.2 < sentiment analysis
         /\ tone = js "Uplifted" /\ trend = js "momentum is tilting upward")
        \/ (0.15 < sentiment analysis /\ sentiment analysis <= 0.2
            /\ tone = js "Neutral" /\ trend = js "momentum is tilting upward")
        \/ (-0.15 <= sentiment analysis /\ sentiment analysis <= 0.15
            /\ tone = js "Neutral" /\ trend = js "signal is steady")
        \/ (-0.2 <= sentiment analysis /\ sentiment analysis < -0.15
            /\ tone = js "Neutral" /\ trend = js "momentum is cooling down")
        \/ (sentiment analysis < -0.2
            /\ tone = js "Cautious" /\ trend = js "momentum is cooling down")).
Proof.
  intros Hne. unfold generateAgentReply.
  rewrite (bool_decide_eq_false_2 _ Hne).
  destruct (Qgtb (sentiment analysis) 0.2) eqn:H1;
    [apply Qgtb_true in H1|apply Qgtb_false in H1];
  (destruct (Qltb (sentiment analysis) (-0.2)) eqn:H2;
    [apply Qltb_true in H2|apply Qltb_false in H2]);
  (destruct (Qgtb (sentiment analysis) 0.15) eqn:H3;
    [apply Qgtb_true in H3|apply Qgtb_false in H3]);
  (destruct (Qltb (sentiment analysis) (-0.15)) eqn:H4;
    [apply Qltb_true in H4|apply Qltb_false in H4]);
  try (exfalso; lra);
  (do 4 eexists; split; [reflexivity|]; split;
   [case_bool_decide; [discriminate|assumption]|]).
  - left. repeat split; (reflexivity || lra).
  - right; right; right; right. repeat split; (reflexivity || lra).
  - right; left. repeat split; (reflexivity || lra).
  - right; right; right; left. repeat split; (reflexivity || lra).
  - right; right; left. repeat split; (reflexivity || lra).
Qed.

Lemma reply_tone_matches_trend_witness :
  exists tone trend headline closing : jsstring,
    @generateAgentReply asciiCase (js "great win")
      (@analyzeText asciiCase (js "great win"))
    = tone ++ js " Grok vector locked. " ++ headline ++ js " indicates "
      ++ trend ++ js ". " ++ closing
    /\ headline <> [].
Proof.
  destruct (@reply_tone_matches_trend asciiCase (js "great win")
              (@analyzeText asciiCase (js "great win")))
    as (tone & trend & headline & closing & Heq & Hhead & _).
  - vm_compute. discriminate.
  - exists tone, trend, headline, closing. split; assumption.
Defined.

Lemma processChunk_reply `{CaseMapping} (clock : Ticks) (st : Session)
    (content : jsstring) :
  trim content <> [] ->
  agentReply (processChunk clock st content)
  = generateAgentReply (trim content)
      (analysisOf (processChunk clock st content)).
Proof.
  intros Hne. unfold analysisOf, processChunk.
  rewrite (bool_decide_eq_false_2 _ Hne). reflexivity.
Qed.

(** X19. When a fragment is accepted but the corpus still has no token (only
    short words, stop words or punctuation so far), the reply is the fixed
    sentence with the neutral tone, the word "Listening" for the headline,
    the steady trend and the invitation to probe deeper. *)
Theorem reply_without_tokens `{CaseMapping} (clock : Ticks) (st : Session)
    (content : jsstring) :
  trim content <> [] ->
  normalize (compiledText (processChunk clock st content)) = [] ->
  agentReply (processChunk clock st content)
  = js "Neutral Grok vector locked. Listening indicates signal is steady. We can probe deeper if you want to expand the field.".
Proof.
  intros Hne Hnil. rewrite processChunk_reply by exact Hne.
  unfold analysisOf, analyzeText. rewrite analyzeWith_empty by exact Hnil.
  unfold generateAgentReply. rewrite trim_idempotent.
  rewrite (bool_decide_eq_false_2 _ Hne). reflexivity.
Qed.

Lemma reply_without_tokens_witness :
  agentReply (@processChunk asciiCase (mkTicks 4 4 4) (initialSession 0)
                (js " so it is, and ... "))
  = js "Neutral Grok vector locked. Listening indicates signal is steady. We can probe deeper if you want to expand the field.".
Proof.
  apply (@reply_without_tokens asciiCase).
  - vm_compute. discriminate.
  - vm_compute. reflexivity.
Defined.

(** ** Further properties: segment ids *)

Lemma digitsOf_range (d : Decimal.uint) :
  Forall (fun c => (48 <= c /\ c <= 57)%N) (digitsOf d).
Proof. induction d; cbn [digitsOf]; constructor; (lia || assumption). Qed.

Lemma digitsOf_inj (d d' : Decimal.uint) : digitsOf d = digitsOf d' -> d = d'.
Proof.
  revert d'. induction d; intros d' Heq; destruct d'; cbn in Heq;
    try discriminate; try reflexivity;
    injection Heq as Heq; f_equal; now apply IHd.
Qed.

Lemma showN_inj (a b : N) : showN a = showN b -> a = b.
Proof.
  unfold showN. intros Heq. apply digitsOf_inj in Heq.
  rewrite <- (DecimalN.Unsigned.of_to a), <- (DecimalN.Unsigned.of_to b).
  now rewrite Heq.
Qed.

Lemma showN_no_dash (n : N) : 45%N ∉ showN n.
Proof.
  unfold showN. intros Hin.
  pose proof (digitsOf_range (N.to_uint n)) as Hrange.
  rewrite Forall_forall in Hrange. specialize (Hrange _ Hin). lia.
Qed.

Lemma app_sep_inj {A : Type} (sep : A) (l1 l2 x y : list A) :
  sep ∉ l1 -> sep ∉ l2 ->
  l1 ++ sep :: x = l2 ++ sep :: y -> l1 = l2 /\ x = y.
Proof.
  revert l2. induction l1 as [|a l1 IH]; intros l2 H1 H2 Heq.
  - destruct l2 as [|b l2]; cbn in Heq.
    + injection Heq as Heq. now split.
    + injection Heq as Hb _. subst b. exfalso. apply H2. left.
  - destruct l2 as [|b l2]; cbn in Heq.
    + injection Heq as Ha _. subst a. exfalso. apply H1. left.
    + injection Heq as -> Heq.
      apply not_elem_of_cons in H1 as [_ H1], H2 as [_ H2].
      destruct (IH l2 H1 H2 Heq) as [-> ->]. now split.
Qed.

(** Different pairs of clock reading and counter are written differently. *)
Lemma renderId_inj (p q : N * N) : renderId p = renderId q -> p = q.
Proof.
  destruct p as [t n], q as [t' n']. unfold renderId. cbn [fst snd].
  change (js "-") with [45%N]. cbn [app]. intros Heq.
  apply app_sep_inj in Heq as [Ht Hn]; try apply showN_no_dash.
  apply showN_inj in Ht, Hn. now subst.
Qed.

Lemma acceptedIdTimes_cons (clock : Ticks) (content : jsstring)
    (rest : list (Ticks * jsstring)) :
  acceptedIdTimes ((clock, content) :: rest)
  = if bool_decide (trim content = []) then acceptedIdTimes rest
    else idNow clock :: acceptedIdTimes rest.
Proof.
  unfold acceptedIdTimes. simpl.
  destruct (bool_decide (trim content = [])); reflexivity.
Qed.

Lemma submitAll_ids `{CaseMapping} (fragments : list (Ticks * jsstring)) :
  forall (st : Session) (pairs0 : list (N * N)),
    map Segment.id (segments st) = map renderId pairs0 ->
    (length pairs0 <= 6)%nat ->
    exists pairs : list (N * N),
      map Segment.id (segments (submitAll st fragments)) = map renderId pairs
      /\ map fst pairs
         = sliceLast6 (map fst pairs0 ++ acceptedIdTimes fragments).
Proof.
  induction fragments as [|[clock content] rest IH]; intros st pairs0 Hids Hlen.
  - exists pairs0. split; [exact Hids|].
    cbn [acceptedIdTimes omap]. rewrite app_nil_r, sliceLast6_short;
      [reflexivity|now rewrite length_map].
  - rewrite submitAll_cons, acceptedIdTimes_cons.
    destruct (decide (trim content = [])) as [Hblank|Hne].
    + rewrite processChunk_blank_frame by exact Hblank.
      rewrite (bool_decide_eq_true_2 _ Hblank). now apply IH.
    + rewrite (bool_decide_eq_false_2 _ Hne).
      destruct (IH (processChunk clock st content)
                  (sliceLast6 (pairs0 ++ [(idNow clock,
                                           N.of_nat (length (segments st)))])))
        as (pairs & Hpairs & Hfst).
      * unfold processChunk. rewrite (bool_decide_eq_false_2 _ Hne).
        cbn [segments]. rewrite !sliceLast6_map, !map_app, Hids. reflexivity.
      * apply sliceLast6_length.
      * exists pairs. split; [exact Hpairs|]. rewrite Hfst.
        rewrite sliceLast6_map, map_app, sliceLast6_app, <- app_assoc.
        reflexivity.
Qed.

(** X20. Segment ids in the trail are pairwise different whenever the clock
    readings taken for the ids of the accepted fragments are pairwise
    different, for instance when no two fragments are accepted within the
    same millisecond. *)
Theorem distinct_clock_distinct_ids `{CaseMapping} (mounted : N)
    (fragments : list (Ticks * jsstring)) :
  NoDup (acceptedIdTimes fragments) ->
  NoDup (map Segment.id (segments (submitAll (initialSession mounted) fragments))).
Proof.
  intros Hnd.
  destruct (submitAll_ids fragments (initialSession mounted) [])
    as (pairs & Hids & Hfst); [reflexivity|cbn; lia|].
  rewrite Hids. cbn [map app] in Hfst.
  assert (Hpairs : NoDup pairs).
  { apply (NoDup_fmap_1 fst). change (NoDup (map fst pairs)). rewrite Hfst.
    eapply sublist_NoDup; [exact Hnd|apply sublist_drop]. }
  assert (Hinj : Inj (=) (=) renderId) by (intros p q; apply renderId_inj).
  exact (NoDup_fmap_2 renderId pairs Hpairs).
Qed.

Lemma distinct_clock_distinct_ids_witness :
  NoDup (map Segment.id
           (segments
              (@submitAll asciiCase (initialSession 0)
                 [(mkTicks 1000 1000 1000, js "one");
                  (mkTicks 1000 1000 1000, js "  ");
                  (mkTicks 1001 1001 1001, js "two");
                  (mkTicks 1002 1002 1002, js "three")]))).
Proof.
  apply (@distinct_clock_distinct_ids asciiCase).
  apply (bool_decide_unpack _). vm_compute. exact I.
Defined.

(** ** Further properties: ranking, sentiment sign, cards and timestamps *)

(** X21. No token that is left out of the keywords occurs more often than a
    keyword, and the first keyword occurs at least as often as every
    token. *)
Theorem keywords_are_most_frequent `{CaseMapping} (content : jsstring) :
  let tokens := normalize content in
  let kws := keywords (analyzeText content) in
  (forall k t, k ∈ kws -> t ∈ tokens -> t ∉ kws ->
               (occurrences t tokens <= occurrences k tokens)%nat)
  /\ (forall k t, head kws = Some k -> t ∈ tokens ->
                  (occurrences t tokens <= occurrences k tokens)%nat).
Proof.
  intros tokens kws.
  destruct (decide (tokens = [])) as [Hnil|Hne].
  { rewrite Hnil. split; intros k t _ Ht; now apply elem_of_nil in Ht. }
  pose proof (analyzeWith_keywords POSITIVE_TERMS NEGATIVE_TERMS content Hne)
    as Hkw. fold (analyzeText content) in Hkw. fold kws tokens in Hkw.
  destruct (ranking_of_tokens tokens) as (_ & Hmem & Hsorted).
  set (ranked := map fst (sortBy byCountDesc (frequencyOf tokens))) in *.
  assert (Hle : forall a b, ranksBefore tokens a b ->
                            (occurrences b tokens <= occurrences a tokens)%nat).
  { intros a b [Hlt|[Heq _]]; lia. }
  split.
  - intros k t Hk Ht Hout. apply Hle. rewrite Hkw in Hk, Hout.
    rewrite <- (take_drop 6 ranked) in Hsorted.
    eapply StronglySorted_app_1_elem_of; [exact Hsorted|exact Hk|].
    apply Hmem in Ht. rewrite <- (take_drop 6 ranked) in Ht.
    apply elem_of_app in Ht as [Ht|Ht]; [contradiction|exact Ht].
  - intros k t Hhead Ht. rewrite Hkw in Hhead. apply Hmem in Ht.
    destruct ranked as [|r ranked']; [now apply elem_of_nil in Ht|].
    cbn in Hhead. injection Hhead as <-.
    apply elem_of_cons in Ht as [->|Ht]; [lia|].
    apply Hle. apply StronglySorted_cons in Hsorted as [Hall _].
    rewrite Forall_forall in Hall. now apply Hall.
Qed.

Lemma keywords_are_most_frequent_witness :
  (occurrences (js "risk") (@normalize asciiCase (js "win risk win growth win"))
   <= occurrences (js "win") (@normalize asciiCase (js "win risk win growth win")))%nat.
Proof.
  apply (proj2 (@keywords_are_most_frequent asciiCase
                  (js "win risk win growth win")) (js "win") (js "risk")).
  - vm_compute. reflexivity.
  - apply list_elem_of_In. vm_compute. right; left; reflexivity.
Defined.

(** X22. The sentiment has the sign of the difference of the hits: it is
    positive exactly when the positive hits outnumber the negative ones,
    negative exactly when they are outnumbered, and zero when they are as
    many. *)
Theorem sentiment_sign `{CaseMapping} (content : jsstring) :
  let tokens := normalize content in
  let s := sentiment (analyzeText content) in
  (0 < s <-> (hits NEGATIVE_TERMS tokens < hits POSITIVE_TERMS tokens)%nat)
  /\ (s < 0 <-> (hits POSITIVE_TERMS tokens < hits NEGATIVE_TERMS tokens)%nat)
  /\ (s == 0 <-> hits POSITIVE_TERMS tokens = hits NEGATIVE_TERMS tokens).
Proof.
  intros tokens s.
  set (p := hits POSITIVE_TERMS tokens). set (n := hits NEGATIVE_TERMS tokens).
  set (m := Nat.max (length tokens) 4).
  assert (Hs : s == (ofNat p - ofNat n) / ofNat m)
    by apply sentiment_quotient.
  assert (Hm : 0 < ofNat m) by (assert (4 <= ofNat m) by (apply (ofNat_le 4 m); lia); lra).
  assert (Hmul : s * ofNat m == ofNat p - ofNat n).
  { rewrite Hs. field. lra. }
  assert (Hcmp : forall a b : nat, (a < b)%nat <-> ofNat a < ofNat b).
  { intros a b. unfold ofNat. rewrite <- Zlt_Qlt. lia. }
  assert (Heqn : forall a b : nat, a = b <-> ofNat a == ofNat b).
  { intros a b. unfold ofNat. rewrite inject_Z_injective. lia. }
  rewrite !Hcmp, Heqn. repeat split; intros Hx; nra.
Qed.

(** X23. The number of insight cards follows from the number of keywords:
    three without keywords, four with one, five otherwise. The cards
    "baseline-velocity" and "baseline-composure" are always there, while
    "baseline-focus" is shown only with fewer than three keywords. *)
Theorem insight_cards `{CaseMapping} (content : jsstring) :
  let a := analyzeText content in
  let ids := map Insight.id (buildInsights a) in
  length (buildInsights a) = Nat.min 5 (Nat.min 3 (length (keywords a)) + 3)
  /\ js "baseline-velocity" ∈ ids
  /\ js "baseline-composure" ∈ ids
  /\ (js "baseline-focus" ∈ ids <-> (length (keywords a) < 3)%nat).
Proof.
  intros a ids.
  assert (Hids : ids = take 5 (map (fun k => js "cluster-" ++ k)
                                 (take 3 (keywords a))
                               ++ map Insight.id BASE_INSIGHTS))
    by apply insight_ids.
  assert (Hlen : length (buildInsights a) = length ids)
    by (subst ids; now rewrite length_map).
  pose proof (length_take (keywords a) 3) as Htake.
  rewrite Hlen, Hids.
  change (map Insight.id BASE_INSIGHTS)
    with [js "baseline-velocity"; js "baseline-composure"; js "baseline-focus"].
  destruct (take 3 (keywords a)) as [|k1 [|k2 [|k3 [|k4 more]]]];
    cbn [length] in Htake; cbn [map app take length];
    try (exfalso; lia);
    (split; [lia|]);
    (split; [apply list_elem_of_In; cbn; tauto|]);
    (split; [apply list_elem_of_In; cbn; tauto|]);
    (split; [|try (intros _; apply list_elem_of_In; cbn; tauto); intros Hlt; lia]).
  - intros _. lia.
  - intros _. lia.
  - intros _. lia.
  - intros Hin. exfalso. rewrite !elem_of_cons in Hin.
    destruct Hin as [Hb|[Hb|[Hb|[Hb|[Hb|Hb]]]]];
      try discriminate Hb; now apply elem_of_nil in Hb.
Qed.

Lemma accepted_stamps_sorted (fragments : list (Ticks * jsstring)) :
  StronglySorted N.le (map (fun tf => stampNow (fst tf)) fragments) ->
  StronglySorted N.le (map snd (accepted fragments)).
Proof.
  induction fragments as [|[clock content] rest IH]; intros Hsorted;
    [constructor|].
  cbn [map fst] in Hsorted. apply StronglySorted_cons in Hsorted as [Hall Hrest].
  rewrite accepted_cons. case_bool_decide; [now apply IH|].
  cbn [map snd]. constructor; [now apply IH|].
  rewrite Forall_forall in *. intros stamp Hstamp. apply Hall.
  clear -Hstamp. induction rest as [|[clock' content'] rest IH];
    [now apply elem_of_nil in Hstamp|].
  rewrite accepted_cons in Hstamp. cbn [map fst].
  case_bool_decide; [right; now apply IH|].
  cbn [map snd] in Hstamp. apply elem_of_cons in Hstamp as [->|Hstamp];
    [left|right; now apply IH].
Qed.

(** X24. When the clock does not run backwards between the fragments, the
    timestamps of the segments in the trail are in ascending order: the
    trail is in chronological order, oldest first. *)
Theorem trail_timestamps_sorted `{CaseMapping} (mounted : N)
    (fragments : list (Ticks * jsstring)) :
  StronglySorted N.le (map (fun tf => stampNow (fst tf)) fragments) ->
  StronglySorted N.le
    (map Segment.timestamp
       (segments (submitAll (initialSession mounted) fragments))).
Proof.
  intros Hsorted.
  assert (Hstamps : map Segment.timestamp
                      (segments (submitAll (initialSession mounted) fragments))
                    = sliceLast6 (map snd (accepted fragments))).
  { transitivity
      (map snd (map trailEntry
                  (segments (submitAll (initialSession mounted) fragments))));
      [now rewrite map_map|].
    rewrite submitAll_trail by (cbn; lia).
    cbn [initialSession segments map app]. apply sliceLast6_map. }
  rewrite Hstamps. unfold sliceLast6.
  apply accepted_stamps_sorted in Hsorted.
  rewrite <- (take_drop (length (map snd (accepted fragments)) - 6)
                (map snd (accepted fragments))) in Hsorted.
  exact (StronglySorted_app_1_r _ _ _ Hsorted).
Qed.

Lemma trail_timestamps_sorted_witness :
  StronglySorted N.le
    (map Segment.timestamp
       (segments
          (@submitAll asciiCase (initialSession 0)
             [(mkTicks 10 10 11, js "one"); (mkTicks 12 12 12, js " ");
              (mkTicks 12 12 12, js "two"); (mkTicks 30 31 31, js "three")]))).
Proof.
  apply (@trail_timestamps_sorted asciiCase).
  cbn. repeat constructor; lia.
Defined.
